(** * modx-proxy: the session client and the tool dispatcher

    A shallow embedding of [src/modx-proxy.ts] (class [ModxProxyService])
    and of [src/index.ts] (tool-name mapping, schema generation and the two
    request handlers), followed by the properties of the specification.

    Strings are Rocq strings: sequences of characters with codes 0 to 255.
    On the codes below 128 the functions on characters are those of
    JavaScript.  [toLowerCase] leaves the codes from 128 on as they are,
    where JavaScript may move them to other codes from 128 on; the program
    only ever compares a lower-cased string with ASCII words or replaces
    its characters outside [a-z0-9], so the difference does not show. *)

From Stdlib Require Import Ascii.
From stdpp Require Import gmap strings list fin_maps pretty.

Set Default Proof Using "Type".
Local Open Scope string_scope.

(** ** The fragment of JavaScript the program uses *)

Module JS.

(** Values that travel through the program: what [JSON.parse] returns,
    and [undefined] for an absent property.  Numbers are the
    integer-valued ones. *)
#[warning="-register-all"]
Inductive value : Type :=
| VUndefined
| VNull
| VBool (b : bool)
| VNum (n : Z)
| VStr (s : string)
| VArr (items : list value)
| VObj (fields : list (string * value)).

(** [ToBoolean]: what [if (v)], [!v] and [v || w] test. *)
Definition truthy (v : value) : bool :=
  match v with
  | VUndefined | VNull => false
  | VBool b => b
  | VNum n => negb (n =? 0)%Z
  | VStr s => negb (String.eqb s "")
  | VArr _ | VObj _ => true
  end.

(** [a || b] *)
Definition or_else (a b : value) : value := if truthy a then a else b.

(** [v !== false], [v === true], and the three tests of
    [v !== undefined && v !== null && v !== ''] *)
Definition is_false (v : value) : bool :=
  match v with VBool false => true | _ => false end.
Definition is_true (v : value) : bool :=
  match v with VBool true => true | _ => false end.
Definition is_undefined (v : value) : bool :=
  match v with VUndefined => true | _ => false end.
Definition is_null (v : value) : bool :=
  match v with VNull => true | _ => false end.
Definition is_empty_string (v : value) : bool :=
  match v with VStr s => String.eqb s "" | _ => false end.

(** Characters *)
Definition code (c : ascii) : N := N_of_ascii c.
Definition in_range (lo hi : N) (c : ascii) : bool :=
  ((lo <=? code c) && (code c <=? hi))%N.
Definition is_upper : ascii -> bool := in_range 65 90.
Definition is_lower : ascii -> bool := in_range 97 122.
Definition is_digit : ascii -> bool := in_range 48 57.

Fixpoint map_chars (f : ascii -> ascii) (s : string) : string :=
  match s with
  | EmptyString => EmptyString
  | String c s' => String (f c) (map_chars f s')
  end.

(** [s.toLowerCase()] *)
Definition lower_char (c : ascii) : ascii :=
  if is_upper c then ascii_of_N (code c + 32) else c.
Definition toLowerCase (s : string) : string := map_chars lower_char s.

(** [s.replace(/[^a-z0-9]/g, '_')] *)
Definition matches_a_z0_9 (c : ascii) : bool := is_lower c || is_digit c.
Definition replace_non_a_z0_9 (s : string) : string :=
  map_chars (fun c => if matches_a_z0_9 c then c else "_"%char) s.

(** [s.startsWith(p)] and [s.endsWith(p)] *)
Fixpoint startsWith (s p : string) : bool :=
  match p, s with
  | EmptyString, _ => true
  | String a p', String b s' => Ascii.eqb a b && startsWith s' p'
  | String _ _, EmptyString => false
  end.
Definition endsWith (s p : string) : bool :=
  startsWith (String.rev s) (String.rev p).

(** [s.substring(n)] *)
Fixpoint substring_from (n : nat) (s : string) : string :=
  match n, s with
  | O, _ => s
  | S n', String _ s' => substring_from n' s'
  | S _, EmptyString => EmptyString
  end.

(** [s.replace(/\/$/, '')]: one trailing slash, if any, is removed. *)
Definition strip_trailing_slash (s : string) : string :=
  if endsWith s "/" then String.rev (substring_from 1 (String.rev s)) else s.

(** An object as a finite map of its own enumerable properties.  The
    fields of [VObj] are assigned in order, a later one overriding an
    earlier one of the same name. *)
Definition assign_all (fields : list (string * value))
    (o : gmap string value) : gmap string value :=
  fold_left (fun m kv => <[kv.1 := kv.2]> m) fields o.

Fixpoint chars_of (s : string) : list value :=
  match s with
  | EmptyString => []
  | String c s' => VStr (String c EmptyString) :: chars_of s'
  end.

Definition indexed (l : list value) : list (string * value) :=
  imap (fun i v => (pretty i, v)) l.

(** The properties that [{...v}] copies. *)
Definition own_props (v : value) : gmap string value :=
  match v with
  | VObj fields => assign_all fields ∅
  | VArr items => assign_all (indexed items) ∅
  | VStr s => assign_all (indexed (chars_of s)) ∅
  | _ => ∅
  end.

(** Exceptions: an axios error (with the status of [error.response], if
    there is a response), an [Error] with its message, or any other
    thrown value. *)
Inductive exn : Type :=
| AxiosError (status : option Z) (message : string)
| Error (message : string)
| Thrown (v : value).

(** [error instanceof Error ? error.message : fallback] *)
Definition message_or (fallback : string) (e : exn) : string :=
  match e with
  | AxiosError _ m | Error m => m
  | Thrown _ => fallback
  end.

(** Result of running a piece of code: a value or an exception. *)
Inductive res (A : Type) : Type :=
| Ok (a : A)
| Throw (e : exn).
Arguments Ok {A} a.
Arguments Throw {A} e.

(** [v.k]: reading a property of [null] or [undefined] throws a
    [TypeError]. *)
Definition get_prop (v : value) (k : string) : res value :=
  match v with
  | VNull => Throw (Error ("Cannot read properties of null (reading '" +:+ k +:+ "')"))
  | VUndefined => Throw (Error ("Cannot read properties of undefined (reading '" +:+ k +:+ "')"))
  | _ => Ok (default VUndefined (own_props v !! k))
  end.

(** [v?.k] *)
Definition get_prop_opt (v : value) (k : string) : value :=
  match get_prop v k with Ok x => x | Throw _ => VUndefined end.

(** Code that reads and writes a state [S] and may throw. *)
Definition prog (S A : Type) : Type := S -> res A * S.

Definition ret {S A} (a : A) : prog S A := fun s => (Ok a, s).
Definition throw {S A} (e : exn) : prog S A := fun s => (Throw e, s).
Definition bind {S A B} (p : prog S A) (k : A -> prog S B) : prog S B :=
  fun s => match p s with
           | (Ok a, s') => k a s'
           | (Throw e, s') => (Throw e, s')
           end.
Definition try_catch {S A} (p : prog S A) (h : exn -> prog S A) : prog S A :=
  fun s => match p s with
           | (Ok a, s') => (Ok a, s')
           | (Throw e, s') => h e s'
           end.
Definition gets {S A} (f : S -> A) : prog S A := fun s => (Ok (f s), s).
Definition modify {S} (f : S -> S) : prog S unit := fun s => (Ok tt, f s).
Definition of_res {S A} (r : res A) : prog S A := fun s => (r, s).
Definition when {S} (b : bool) (p : prog S unit) : prog S unit :=
  if b then p else ret tt.

End JS.

Import JS.

Declare Scope prog_scope.
Delimit Scope prog_scope with prog.
Notation "x <- p ;; k" := (bind p (fun x => k))
  (at level 100, p at next level, right associativity) : prog_scope.
Notation "p ;;; k" := (bind p (fun _ => k))
  (at level 100, right associativity) : prog_scope.

(** ** The session client: class [ModxProxyService] of [modx-proxy.ts] *)

Module ModxProxy.

(** [String(v)], as template literals and [new Error(v)] apply it. *)
Definition join_with (sep : string) (l : list string) : string :=
  match l with
  | [] => ""
  | x :: xs => fold_left (fun acc y => acc +:+ sep +:+ y) xs x
  end.

Fixpoint to_String (v : value) : string :=
  match v with
  | VUndefined => "undefined"
  | VNull => "null"
  | VBool true => "true"
  | VBool false => "false"
  | VNum n => pretty n
  | VStr s => s
  | VArr items =>
      join_with ","
        (map (fun x => match x with
                       | VUndefined | VNull => ""
                       | _ => to_String x
                       end) items)
  | VObj _ => "[object Object]"
  end.

(** The interfaces declared at the head of [modx-proxy.ts]. *)
Record Param : Type := {
  param_name : string;
  param_type : string;
  param_required : value;      (* declared boolean, tested with [=== true] *)
  param_description : string;
  param_default : value;       (* [default?: any], [VUndefined] when absent *)
  param_value : value
}.

Record ProcessorInfo : Type := {
  path : string;
  namespace : string;
  description : string;
  class : string;
  file : string;
  parameters : option (list Param)   (* [None]: missing or not an array *)
}.

Record ProcessorList : Type := {
  processors : list ProcessorInfo;
  total : value;
  generated_at : value
}.

Record SessionInfo : Type := {
  isAuthenticated : bool;
  baseUrl : option string;
  connectorUrl : option string;
  user : value;
  loginTime : option nat;
  lastActivity : option nat
}.

Record LoginResult : Type := {
  login_success : bool;
  login_message : value;      (* declared string; holds [result.message] as received *)
  login_user : value;
  login_sessionInfo : option SessionInfo
}.

Record LogoutResult : Type := {
  logout_success : bool;
  logout_message : string
}.

(** What the host provides and the source takes for granted:
    [JSON.parse] ([None] when it throws a [SyntaxError]) and the view of a
    parsed [object.processors] at its declared type
    [ProcessorList['processors']]. *)
Class Host : Type := {
  JSON_parse : string -> option value;
  as_processors : value -> list ProcessorInfo
}.

(** The private fields of the class. *)
Record Service : Type := {
  this_cookieJar : list string;
  this_baseUrl : string;
  this_connectorPath : string;
  this_adminPath : string;
  this_modxMcpConnectorPath : string;
  this_isAuthenticated : bool;
  this_sessionInfo : SessionInfo;
  this_processorCache : option ProcessorList;
  this_authToken : value
}.

(** One [httpClient.post]: where it went and what it carried. *)
Record Request : Type := {
  url : string;
  form : gmap string value;
  referer : string;
  cookies : list string
}.

Record Response : Type := {
  data : value;
  setCookie : list string
}.

(** The world outside the process: the outcomes of the coming HTTP
    exchanges, the requests sent so far, the clock, and whether the cookie
    store refuses to be emptied. *)
Record World : Type := {
  script : list (res Response);
  sent : list Request;
  now : nat;
  jarFails : bool
}.

Record Client : Type := { this : Service; world : World }.

Definition set_baseUrl (x : string) (s : Service) : Service :=
  {| this_cookieJar := this_cookieJar s; this_baseUrl := x;
     this_connectorPath := this_connectorPath s; this_adminPath := this_adminPath s;
     this_modxMcpConnectorPath := this_modxMcpConnectorPath s;
     this_isAuthenticated := this_isAuthenticated s;
     this_sessionInfo := this_sessionInfo s;
     this_processorCache := this_processorCache s;
     this_authToken := this_authToken s |}.

Definition set_cookieJar (x : list string) (s : Service) : Service :=
  {| this_cookieJar := x; this_baseUrl := this_baseUrl s;
     this_connectorPath := this_connectorPath s; this_adminPath := this_adminPath s;
     this_modxMcpConnectorPath := this_modxMcpConnectorPath s;
     this_isAuthenticated := this_isAuthenticated s;
     this_sessionInfo := this_sessionInfo s;
     this_processorCache := this_processorCache s;
     this_authToken := this_authToken s |}.

Definition set_isAuthenticated (x : bool) (s : Service) : Service :=
  {| this_cookieJar := this_cookieJar s; this_baseUrl := this_baseUrl s;
     this_connectorPath := this_connectorPath s; this_adminPath := this_adminPath s;
     this_modxMcpConnectorPath := this_modxMcpConnectorPath s;
     this_isAuthenticated := x;
     this_sessionInfo := this_sessionInfo s;
     this_processorCache := this_processorCache s;
     this_authToken := this_authToken s |}.

Definition set_sessionInfo (x : SessionInfo) (s : Service) : Service :=
  {| this_cookieJar := this_cookieJar s; this_baseUrl := this_baseUrl s;
     this_connectorPath := this_connectorPath s; this_adminPath := this_adminPath s;
     this_modxMcpConnectorPath := this_modxMcpConnectorPath s;
     this_isAuthenticated := this_isAuthenticated s;
     this_sessionInfo := x;
     this_processorCache := this_processorCache s;
     this_authToken := this_authToken s |}.

Definition set_processorCache (x : option ProcessorList) (s : Service) : Service :=
  {| this_cookieJar := this_cookieJar s; this_baseUrl := this_baseUrl s;
     this_connectorPath := this_connectorPath s; this_adminPath := this_adminPath s;
     this_modxMcpConnectorPath := this_modxMcpConnectorPath s;
     this_isAuthenticated := this_isAuthenticated s;
     this_sessionInfo := this_sessionInfo s;
     this_processorCache := x;
     this_authToken := this_authToken s |}.

Definition set_authToken (x : value) (s : Service) : Service :=
  {| this_cookieJar := this_cookieJar s; this_baseUrl := this_baseUrl s;
     this_connectorPath := this_connectorPath s; this_adminPath := this_adminPath s;
     this_modxMcpConnectorPath := this_modxMcpConnectorPath s;
     this_isAuthenticated := this_isAuthenticated s;
     this_sessionInfo := this_sessionInfo s;
     this_processorCache := this_processorCache s;
     this_authToken := x |}.

(** [this.sessionInfo.isAuthenticated = x] and
    [this.sessionInfo.lastActivity = x] *)
Definition with_isAuthenticated (x : bool) (i : SessionInfo) : SessionInfo :=
  {| isAuthenticated := x; baseUrl := baseUrl i; connectorUrl := connectorUrl i;
     user := user i; loginTime := loginTime i; lastActivity := lastActivity i |}.

Definition with_lastActivity (x : nat) (i : SessionInfo) : SessionInfo :=
  {| isAuthenticated := isAuthenticated i; baseUrl := baseUrl i;
     connectorUrl := connectorUrl i; user := user i; loginTime := loginTime i;
     lastActivity := Some x |}.

(** [{ isAuthenticated: false }] *)
Definition no_session : SessionInfo :=
  {| isAuthenticated := false; baseUrl := None; connectorUrl := None;
     user := VUndefined; loginTime := None; lastActivity := None |}.

Definition update (f : Service -> Service) : prog Client unit :=
  modify (fun c => {| this := f (this c); world := world c |}).

(** [new Date()] *)
Definition Date_now : prog Client nat := gets (fun c => now (world c)).

(** [await this.httpClient.post(url, body, { headers })].  The request is
    recorded with the cookies of the jar; the outcome is the next one of
    the script (a network failure when the script is exhausted), and the
    cookies a response sets go to the jar. *)
Definition post (u : string) (body : gmap string value) (ref : string)
  : prog Client Response :=
  fun c =>
    let w := world c in
    let req := {| url := u; form := body; referer := ref;
                  cookies := this_cookieJar (this c) |} in
    let after rest := {| script := rest; sent := sent w ++ [req];
                         now := S (now w); jarFails := jarFails w |} in
    match script w with
    | [] => (Throw (AxiosError None "Network Error"),
             {| this := this c; world := after [] |})
    | Ok r :: rest =>
        (Ok r, {| this := set_cookieJar (this_cookieJar (this c) ++ setCookie r) (this c);
                  world := after rest |})
    | Throw e :: rest => (Throw e, {| this := this c; world := after rest |})
    end.

(** [await this.cookieJar.removeAllCookies()] *)
Definition removeAllCookies : prog Client unit :=
  fun c =>
    if jarFails (world c)
    then (Throw (Error "Cookie store failure"), c)
    else (Ok tt, {| this := set_cookieJar [] (this c); world := world c |}).

(** [normalizePath] *)
Definition normalizePath (p : string) : string :=
  let p := if negb (startsWith p "/") then "/" +:+ p else p in
  let p := if negb (endsWith p "/") then p +:+ "/" else p in
  p.

(** [process.env.X || d] *)
Definition env_or (x : option string) (d : string) : string :=
  match x with
  | Some s => if String.eqb s "" then d else s
  | None => d
  end.

(** The constructor, from the three environment variables it reads. *)
Definition constructor (MODX_BASE_URL MODX_CONNECTOR_PATH MODX_ADMIN_PATH : option string)
  : Service :=
  {| this_cookieJar := [];
     this_baseUrl := env_or MODX_BASE_URL "http://localhost";
     this_connectorPath := normalizePath (env_or MODX_CONNECTOR_PATH "/connectors/");
     this_adminPath := normalizePath (env_or MODX_ADMIN_PATH "/manager/");
     this_modxMcpConnectorPath := "/assets/components/modx-mcp/connector.php";
     this_isAuthenticated := false;
     this_sessionInfo := no_session;
     this_processorCache := None;
     this_authToken := VStr "" |}.

Section Methods.
Context `{Host}.
Local Open Scope prog_scope.

(** The "Parse response" block shared by the three calls: a string body
    goes through [JSON.parse], anything else is taken as it is. *)
Definition parse_response (d : value) (on_error : res value) : res value :=
  match d with
  | VStr s => match JSON_parse s with
              | Some v => Ok v
              | None => on_error
              end
  | _ => Ok d
  end.

Definition headers_referer (s : Service) : string :=
  this_baseUrl s +:+ this_adminPath s.

(** [login(username, password, baseUrl?)].  The [sessionInfo] of the result
    is the object the service keeps; its content at the time of the return
    is what is recorded here. *)
Definition login (username password : string) (baseUrl_arg : option string)
  : prog Client LoginResult :=
  try_catch
    (when (truthy (from_option VStr VUndefined baseUrl_arg))
       (update (set_baseUrl (strip_trailing_slash (default "" baseUrl_arg)))) ;;;
     s <- gets this ;;
     let connectorUrl := this_baseUrl s +:+ this_connectorPath s in
     let refererUrl := headers_referer s in
     let loginData : gmap string value :=
       {[ "action" := VStr "security/login";
          "username" := VStr username;
          "password" := VStr password;
          "rememberme" := VStr "0";
          "format" := VStr "json" ]} in
     response <- post connectorUrl loginData refererUrl ;;
     result <- of_res (parse_response (data response)
                         (Throw (Error "Invalid JSON response from MODX"))) ;;
     success <- of_res (get_prop result "success") ;;
     if truthy success then
       object <- of_res (get_prop result "object") ;;
       data_ <- of_res (get_prop result "data") ;;
       update (set_isAuthenticated true) ;;;
       update (set_authToken (or_else (get_prop_opt object "token") (VStr ""))) ;;;
       t1 <- Date_now ;;
       t2 <- Date_now ;;
       s <- gets this ;;
       let info := {| isAuthenticated := true;
                      baseUrl := Some (this_baseUrl s);
                      connectorUrl := Some connectorUrl;
                      user := or_else object data_;
                      loginTime := Some t1;
                      lastActivity := Some t2 |} in
       update (set_sessionInfo info) ;;;
       ret {| login_success := true;
              login_message := VStr "Successfully authenticated with MODX";
              login_user := or_else object data_;
              login_sessionInfo := Some info |}
     else
       update (set_isAuthenticated false) ;;;
       message <- of_res (get_prop result "message") ;;
       ret {| login_success := false;
              login_message := or_else message (VStr "Authentication failed");
              login_user := VUndefined;
              login_sessionInfo := None |})
    (fun error =>
       update (set_isAuthenticated false) ;;;
       let errorMessage := message_or "Unknown authentication error" error in
       ret {| login_success := false;
              login_message := VStr ("Authentication error: " +:+ errorMessage);
              login_user := VUndefined;
              login_sessionInfo := None |}).

(** [error.response?.status === 401 || error.response?.status === 403] *)
Definition is_401_or_403 (e : exn) : bool :=
  match e with
  | AxiosError (Some st) _ => (st =? 401)%Z || (st =? 403)%Z
  | _ => false
  end.

(** The [catch] block that [getProcessors] and [callProcessor] share, up to
    the prefix of the last message; [axios.isAxiosError(error)] holds of
    the errors built with [AxiosError]. *)
Definition on_call_error {A} (what : string) (error : exn) : prog Client A :=
  match error with
  | AxiosError st msg =>
      if is_401_or_403 error then
        update (set_isAuthenticated false) ;;;
        s <- gets this ;;
        update (set_sessionInfo (with_isAuthenticated false (this_sessionInfo s))) ;;;
        throw (Error "Session expired. Please login again.")
      else
        throw (Error ("HTTP error " +:+ from_option pretty "undefined" st +:+ ": " +:+ msg))
  | _ => throw (Error (what +:+ ": " +:+ message_or "Unknown error" error))
  end.

Definition touch : prog Client unit :=
  t <- Date_now ;;
  s <- gets this ;;
  update (set_sessionInfo (with_lastActivity t (this_sessionInfo s))).

(** [getProcessors(refresh = false)] *)
Definition getProcessors (refresh : bool) : prog Client ProcessorList :=
  s <- gets this ;;
  match this_processorCache s, refresh with
  | Some cache, false => ret cache
  | _, _ =>
    if negb (this_isAuthenticated s) then
      throw (Error "Not authenticated. Please login first.")
    else
      try_catch
        (touch ;;;
         s <- gets this ;;
         let connectorUrl := this_baseUrl s +:+ this_modxMcpConnectorPath s in
         let refererUrl := headers_referer s in
         let processorData : gmap string value :=
           {[ "action" := VStr "data/index";
              "namespace" := VStr "modx-mcp";
              "format" := VStr "json";
              "HTTP_MODAUTH" := this_authToken s ]} in
         response <- post connectorUrl processorData refererUrl ;;
         result <- of_res (parse_response (data response)
                             (Throw (Error "Invalid JSON response from MODX component"))) ;;
         success <- of_res (get_prop result "success") ;;
         object <- of_res (get_prop result "object") ;;
         if truthy success && truthy object then
           ps <- of_res (get_prop object "processors") ;;
           tot <- of_res (get_prop object "total") ;;
           gen <- of_res (get_prop object "generated_at") ;;
           let processorList :=
             {| processors := if truthy ps then as_processors ps else [];
                total := or_else tot (VNum 0);
                generated_at := or_else gen (VStr "unknown") |} in
           update (set_processorCache (Some processorList)) ;;;
           ret processorList
         else
           message <- of_res (get_prop result "message") ;;
           throw (Error (to_String
             (or_else message (VStr "Failed to get processors from MODX component")))))
        (on_call_error "Failed to get processors")
  end.

(** The object literal that [callProcessor] returns: six computed
    properties, then [...result] on top of them. *)
Definition processor_result (result : value) : prog Client (gmap string value) :=
  success <- of_res (get_prop result "success") ;;
  message <- of_res (get_prop result "message") ;;
  data_ <- of_res (get_prop result "data") ;;
  object <- of_res (get_prop result "object") ;;
  results <- of_res (get_prop result "results") ;;
  errors <- of_res (get_prop result "errors") ;;
  let computed : gmap string value :=
    {[ "success" := VBool (negb (is_false success));
       "message" := message;
       "data" := or_else (or_else data_ object) results;
       "errors" := errors;
       "object" := object;
       "results" := results ]} in
  ret (own_props result ∪ computed).

(** [callProcessor(namespace, action, data = {})] *)
Definition callProcessor (namespace_ action : string) (data_arg : gmap string value)
  : prog Client (gmap string value) :=
  s <- gets this ;;
  if negb (this_isAuthenticated s) then
    throw (Error "Not authenticated. Please login first.")
  else
    try_catch
      (touch ;;;
       s <- gets this ;;
       let connectorUrl := this_baseUrl s +:+ this_connectorPath s in
       let refererUrl := headers_referer s in
       let fixed : gmap string value :=
         {[ "action" := VStr action;
            "format" := VStr "json";
            "HTTP_MODAUTH" := this_authToken s ]} in
       let processorData := data_arg ∪ fixed in
       response <- post connectorUrl processorData refererUrl ;;
       result <- of_res (parse_response (data response)
                           (Ok (VObj [("success", VBool true);
                                      ("data", data response);
                                      ("raw", VBool true)]))) ;;
       processor_result result)
      (on_call_error "Processor call failed").

(** The three assignments that clear the session. *)
Definition clear_session : prog Client unit :=
  update (set_isAuthenticated false) ;;;
  update (set_authToken (VStr "")) ;;;
  update (set_sessionInfo no_session).

(** [logout()] *)
Definition logout : prog Client LogoutResult :=
  try_catch
    (s <- gets this ;;
     (if this_isAuthenticated s
      then callProcessor "core" "security/logout" ∅ ;;; ret tt
      else ret tt) ;;;
     clear_session ;;;
     removeAllCookies ;;;
     ret {| logout_success := true;
            logout_message := "Successfully logged out from MODX" |})
    (fun error =>
       clear_session ;;;
       ret {| logout_success := true;
              logout_message := "Logged out (session cleared locally)" |}).

(** [getSessionInfo()]: a copy of the session information. *)
Definition getSessionInfo : prog Client SessionInfo :=
  gets (fun c => this_sessionInfo (this c)).

End Methods.

End ModxProxy.

(** ** The dispatcher: [index.ts] *)

Module Index.
Import ModxProxy.

(** The shape of a [Tool] of the protocol, as far as the program fills it. *)
Record Property : Type := {
  prop_type : string;
  prop_description : string;
  prop_default : option value        (* [None]: no [default] key *)
}.

Record InputSchema : Type := {
  schema_type : string;
  properties : gmap string Property;
  required : option (list string);
  additionalProperties : option bool
}.

Record Tool : Type := {
  tool_name : string;
  tool_description : string;
  inputSchema : InputSchema
}.

(** The module-level state: the service object and
    [let processorsCache: ProcessorInfo[] | null = null]. *)
Record Server : Type := {
  modxProxy : Client;
  processorsCache : option (list ProcessorInfo)
}.

Definition lift {A} (p : prog Client A) : prog Server A :=
  fun s => let (r, c) := p (modxProxy s) in
           (r, {| modxProxy := c; processorsCache := processorsCache s |}).

Definition set_processorsCache (ps : list ProcessorInfo) : prog Server unit :=
  modify (fun s => {| modxProxy := modxProxy s; processorsCache := Some ps |}).

(** [processorToToolName] *)
Definition processorToToolName (namespace_ action : string) : string :=
  let cleanNamespace := replace_non_a_z0_9 (toLowerCase namespace_) in
  let cleanAction := replace_non_a_z0_9 (toLowerCase action) in
  "modx_" +:+ cleanNamespace +:+ "_" +:+ cleanAction.

(** The tool name of a descriptor:
    [processorToToolName(processor.namespace, processor.path)] *)
Definition name_of (d : ProcessorInfo) : string :=
  processorToToolName (namespace d) (path d).

(** The [for ... of] loop of [toolNameToProcessor]: the first processor
    whose tool name is the one asked for. *)
Fixpoint find_processor (toolName : string) (ps : list ProcessorInfo)
  : option (string * string) :=
  match ps with
  | [] => None
  | processor :: rest =>
      if String.eqb (processorToToolName (namespace processor) (path processor)) toolName
      then Some (namespace processor, path processor)
      else find_processor toolName rest
  end.

(** [toolNameToProcessor], reading [processorsCache]; the pair is
    [(namespace, action)]. *)
Definition toolNameToProcessor (cache : option (list ProcessorInfo)) (toolName : string)
  : option (string * string) :=
  if negb (startsWith toolName "modx_") then None
  else
    let remaining := substring_from 5 toolName in
    match cache with
    | Some ps => find_processor toolName ps
    | None => None
    end.

(** [modxTypeToJsonSchemaType] *)
Definition modxTypeToJsonSchemaType (modxType : string) : string :=
  let t := toLowerCase modxType in
  if String.eqb t "integer" || String.eqb t "int" then "integer"
  else if String.eqb t "boolean" || String.eqb t "bool" then "boolean"
  else if String.eqb t "string" || String.eqb t "text" then "string"
  else if String.eqb t "array" then "array"
  else if String.eqb t "object" then "object"
  else "string".

(** The parameters the loop of [createProcessorTool] skips:
    [!param.name || param.name === '_permission_check' ||
     param.name.startsWith('_')] *)
Definition skipped (param : Param) : bool :=
  String.eqb (param_name param) ""
  || String.eqb (param_name param) "_permission_check"
  || startsWith (param_name param) "_".

(** [x || d] on strings *)
Definition str_or (x d : string) : string := if String.eqb x "" then d else x.

(** The entry written at [properties[param.name]]. *)
Definition property_of (param : Param) : Property :=
  {| prop_type := modxTypeToJsonSchemaType (str_or (param_type param) "string");
     prop_description :=
       str_or (param_description param) ("Parameter: " +:+ param_name param);
     prop_default :=
       if negb (is_undefined (param_default param))
          && negb (is_null (param_default param))
          && negb (is_empty_string (param_default param))
       then Some (param_default param) else None |}.

(** One turn of the loop over [processor.parameters], on the pair
    [(properties, required)]. *)
Definition add_param (acc : gmap string Property * list string) (param : Param)
  : gmap string Property * list string :=
  if skipped param then acc
  else
    (<[param_name param := property_of param]> acc.1,
     if is_true (param_required param) then (acc.2 ++ [param_name param])%list
     else acc.2).

(** [createProcessorTool] *)
Definition createProcessorTool (processor : ProcessorInfo) : Tool :=
  let '(props, req) :=
    match parameters processor with
    | Some params => fold_left add_param params (∅, [])
    | None => (∅, [])
    end in
  {| tool_name := processorToToolName (namespace processor) (path processor);
     tool_description :=
       description processor +:+ " (" +:+ namespace processor +:+ "/"
         +:+ path processor +:+ ")";
     inputSchema := {| schema_type := "object";
                       properties := props;
                       required := Some req;
                       additionalProperties := Some true |} |}.

Definition session_info_tool : Tool :=
  {| tool_name := "modx_get_session_info";
     tool_description := "Get information about current MODX session";
     inputSchema := {| schema_type := "object";
                       properties := ∅;
                       required := None;
                       additionalProperties := None |} |}.

Definition baseTools : list Tool := [session_info_tool].

(** The text of a [tools/call] answer is [JSON.stringify] of one of three
    things; what is kept here is the thing serialized. *)
Inductive Payload : Type :=
| SessionText (info : SessionInfo)
| ResultText (result : gmap string value)
| FailureText (error tool : string) (arguments : option (gmap string value)).

Record CallToolResult : Type := {
  content : Payload;
  isError : bool
}.

Section Handlers.
Context `{Host}.
Local Open Scope prog_scope.

(** [initializeServer], from the three environment variables it reads.
    [login] does not throw, so the [catch] of the source has nothing to
    do here. *)
Definition initializeServer (MODX_USERNAME MODX_PASSWORD MODX_BASE_URL : option string)
  : prog Server unit :=
  match MODX_USERNAME, MODX_PASSWORD with
  | Some username, Some password =>
      if negb (String.eqb username "") && negb (String.eqb password "")
      then try_catch (lift (login username password MODX_BASE_URL) ;;; ret tt)
                     (fun _ => ret tt)
      else ret tt
  | _, _ => ret tt
  end.

(** [getAllTools] *)
Definition getAllTools : prog Server (list Tool) :=
  sessionInfo <- lift getSessionInfo ;;
  if negb (isAuthenticated sessionInfo) then ret baseTools
  else
    try_catch
      (cache <- gets processorsCache ;;
       ps <- match cache with
             | None =>
                 processors_ <- lift (getProcessors false) ;;
                 set_processorsCache (processors processors_) ;;;
                 ret (processors processors_)
             | Some ps => ret ps
             end ;;
       let dynamicTools := map createProcessorTool ps in
       ret (baseTools ++ dynamicTools)%list)
      (fun error => ret baseTools).

(** The handler of [tools/list] *)
Definition listTools : prog Server (list Tool) := getAllTools.

(** The handler of [tools/call] *)
Definition callTool (name : string) (args : option (gmap string value))
  : prog Server CallToolResult :=
  try_catch
    (if String.eqb name "modx_get_session_info" then
       sessionInfo <- lift getSessionInfo ;;
       ret {| content := SessionText sessionInfo; isError := false |}
     else
       cache <- gets processorsCache ;;
       match (if startsWith name "modx_" then toolNameToProcessor cache name else None) with
       | Some (namespace_, action) =>
           result <- lift (callProcessor namespace_ action (default ∅ args)) ;;
           ret {| content := ResultText result; isError := false |}
       | None => throw (Error ("Unknown tool: " +:+ name))
       end)
    (fun error =>
       let errorMessage := message_or "Unknown error" error in
       ret {| content := FailureText errorMessage name args; isError := true |}).

End Handlers.

(** What can happen to the process once it runs: the two requests of the
    transport, and, for the service object it shares, direct calls of its
    methods. *)
Inductive event : Type :=
| ToolsList
| ToolsCall (name : string) (args : option (gmap string value))
| Login (username password : string) (baseUrl_arg : option string)
| Logout
| GetProcessors (refresh : bool).

Definition step `{Host} (e : event) (s : Server) : Server :=
  match e with
  | ToolsList => (listTools s).2
  | ToolsCall name args => (callTool name args s).2
  | Login u p b => (lift (login u p b) s).2
  | Logout => (lift logout s).2
  | GetProcessors refresh => (lift (getProcessors refresh) s).2
  end.

Definition run `{Host} (es : list event) (s : Server) : Server :=
  fold_left (fun s e => step e s) es s.

(** The process at start, before [initializeServer]. *)
Definition start (MODX_BASE_URL MODX_CONNECTOR_PATH MODX_ADMIN_PATH : option string)
    (w : World) : Server :=
  {| modxProxy := {| this := constructor MODX_BASE_URL MODX_CONNECTOR_PATH MODX_ADMIN_PATH;
                     world := w |};
     processorsCache := None |}.

End Index.

(** ** The specification's own wording, for comparison with the code *)

Module Spec.
Import ModxProxy Index.

(** "lower-case both, replace every character outside [a-z0-9] with '_'
    in each, then join as modx_<namespace>_<path>", character by
    character. *)
Definition normalize_char (c : ascii) : ascii :=
  if is_upper c then ascii_of_N (code c + 32)
  else if is_lower c || is_digit c then c
  else "_"%char.

Definition toToolName (namespace_ path_ : string) : string :=
  String.concat "_" ["modx"; map_chars normalize_char namespace_;
                     map_chars normalize_char path_].

(** "Names beginning with _ or equal to a reserved internal name are
    excluded from generated schemas" *)
Definition excluded (name : string) : bool :=
  startsWith name "_" || String.eqb name "_permission_check".

(** "{integer/int→integer, boolean/bool→boolean, string/text→string,
    array→array, object→object, anything else→string}" *)
Definition json_type (t : string) : string :=
  if decide (t = "integer" ∨ t = "int") then "integer"
  else if decide (t = "boolean" ∨ t = "bool") then "boolean"
  else if decide (t = "string" ∨ t = "text") then "string"
  else if decide (t = "array") then "array"
  else if decide (t = "object") then "object"
  else "string".

(** "a default is attached only when the parameter's default is defined,
    non-null, and not an empty string" *)
Definition has_default (v : value) : Prop :=
  v ≠ VUndefined ∧ v ≠ VNull ∧ v ≠ VStr "".

(** "the first populated field among the remote response's data, object,
    results fields" *)
Definition first_populated (data_ object results : value) : value :=
  if truthy data_ then data_ else if truthy object then object else results.

End Spec.

(** ** Concrete data for the examples *)

Module Examples.
Import ModxProxy Index.

(** A host for the examples: its [JSON.parse] knows the three literals and
    rejects what is not JSON at all; its view of a processor list reads
    the declared fields of each entry. *)
Definition parse_literal (s : string) : option value :=
  if String.eqb s "null" then Some VNull
  else if String.eqb s "true" then Some (VBool true)
  else if String.eqb s "false" then Some (VBool false)
  else None.

Definition str_field (o : value) (k : string) : string :=
  match get_prop_opt o k with VStr s => s | _ => "" end.

Definition read_param (v : value) : Param :=
  {| param_name := str_field v "name";
     param_type := str_field v "type";
     param_required := get_prop_opt v "required";
     param_description := str_field v "description";
     param_default := get_prop_opt v "default";
     param_value := get_prop_opt v "value" |}.

Definition read_processor (v : value) : ProcessorInfo :=
  {| path := str_field v "path";
     namespace := str_field v "namespace";
     description := str_field v "description";
     class := str_field v "class";
     file := str_field v "file";
     parameters := match get_prop_opt v "parameters" with
                   | VArr l => Some (map read_param l)
                   | _ => None
                   end |}.

Definition read_processors (v : value) : list ProcessorInfo :=
  match v with VArr l => map read_processor l | _ => [] end.

Definition demo_host : Host :=
  {| JSON_parse := parse_literal; as_processors := read_processors |}.

Definition processor (ns p : string) (ps : list Param) : ProcessorInfo :=
  {| path := p; namespace := ns; description := "Processor";
     class := ""; file := ""; parameters := Some ps |}.

Definition param (n t : string) (req dflt : value) : Param :=
  {| param_name := n; param_type := t; param_required := req;
     param_description := ""; param_default := dflt; param_value := VUndefined |}.

(** Two processors the name mapping cannot tell apart. *)
Definition getlist_mixed : ProcessorInfo := processor "Core" "Resource/GetList" [].
Definition getlist_plain : ProcessorInfo := processor "core" "resource_getlist" [].

(** A processor with a nameless parameter, an upper-case type and a name
    used twice. *)
Definition odd_processor : ProcessorInfo :=
  processor "core" "resource/update"
    [ param "" "string" (VBool true) VUndefined;
      param "limit" "INT" (VNum 1) (VNum 20);
      param "id" "integer" (VBool true) (VNum 7);
      param "id" "text" (VBool false) (VStr "") ].

Definition quiet (outcomes : list (res Response)) : World :=
  {| script := outcomes; sent := []; now := 0; jarFails := false |}.

Definition respond (v : value) : res Response :=
  Ok {| data := v; setCookie := [] |}.

(** The answers of a remote system: a login that succeeds with token T1,
    a login that is refused, a list of two processors, and a list of
    one. *)
Definition login_ok : value :=
  VObj [("success", VBool true);
        ("object", VObj [("token", VStr "T1"); ("username", VStr "admin")])].

Definition login_refused : value :=
  VObj [("success", VBool false); ("message", VStr "Incorrect username or password")].

Definition processor_entry (ns p : string) : value :=
  VObj [("namespace", VStr ns); ("path", VStr p); ("description", VStr "Processor");
        ("parameters", VArr [])].

Definition two_processors : value :=
  VObj [("success", VBool true);
        ("object", VObj [("processors", VArr [processor_entry "core" "resource/getlist";
                                              processor_entry "core" "resource/get"]);
                         ("total", VNum 2);
                         ("generated_at", VStr "2024-01-01")])].

Definition one_processor : value :=
  VObj [("success", VBool true);
        ("object", VObj [("processors", VArr [processor_entry "core" "chunk/getlist"]);
                         ("total", VNum 1);
                         ("generated_at", VStr "2024-01-02")])].

Definition fresh (outcomes : list (res Response)) : Server :=
  start (Some "http://example.test") None None (quiet outcomes).

(** A session after a successful login, with the outcomes of the
    exchanges still to come. *)
Definition logged_in (outcomes : list (res Response)) : Client :=
  modxProxy (@run demo_host [Login "admin" "adminadmin" None]
               (fresh (respond login_ok :: outcomes))).

(** Login, discovery, logout: the list stays in the client's cache. *)
Definition after_logout : Client :=
  modxProxy (@run demo_host [Login "admin" "adminadmin" None; GetProcessors false; Logout]
               (fresh [respond login_ok; respond two_processors;
                       respond (VObj [("success", VBool true)])])).

Definition unauthorized : res Response :=
  Throw (AxiosError (Some 401%Z) "Request failed with status code 401").

(** An answer whose [data] is present but [null], next to a populated
    [object]. *)
Definition null_data : value :=
  VObj [("success", VBool true); ("data", VNull); ("object", VObj [("id", VNum 1)])].

(** A process that has logged in and answered one [tools/list], which
    filled the dispatcher's cache with two processors; and what follows: a
    logout, a new login, and a forced refresh of the client's list, which
    now has one processor. *)
Definition discovered : Server :=
  @run demo_host [Login "admin" "adminadmin" None; ToolsList]
    (fresh [respond login_ok; respond two_processors;
            respond (VObj [("success", VBool true)]);
            respond login_ok; respond one_processor]).

Definition first_snapshot : list ProcessorInfo :=
  [ {| path := "resource/getlist"; namespace := "core"; description := "Processor";
       class := ""; file := ""; parameters := Some [] |};
    {| path := "resource/get"; namespace := "core"; description := "Processor";
       class := ""; file := ""; parameters := Some [] |} ].


End Examples.

(** ** Vocabulary of the proofs *)

Module Reasoning.
Import ModxProxy Index.

(** A program is stable for a relation between the state before and the
    state after when every run of it, returning or throwing, respects the
    relation. *)
Definition stable {S A : Type} (I : S -> S -> Prop) (p : prog S A) : Prop :=
  ∀ s, I s (p s).2.

(** The body [d] of a response stands for [result]: either [d] is a string
    that [JSON.parse] turns into [result], or [d] is no string and is
    [result] itself. *)
Definition decoded `{Host} (d result : value) : Prop :=
  match d with
  | VStr s => JSON_parse s = Some result
  | _ => d = result
  end.

(** The two authenticated flags agree in the direction that matters: a
    service that holds itself authenticated says so in its session
    information. *)
Definition flags_agree (c : Client) : Prop :=
  this_isAuthenticated (this c) = true →
  isAuthenticated (this_sessionInfo (this c)) = true.

(** The token and the user payload are those of [c]; the authenticated
    flag may have gone from true to false, not the other way; and the
    flags still agree if they did. *)
Definition session_kept (c c' : Client) : Prop :=
  this_authToken (this c') = this_authToken (this c)
  ∧ user (this_sessionInfo (this c')) = user (this_sessionInfo (this c))
  ∧ (this_isAuthenticated (this c') = true → this_isAuthenticated (this c) = true)
  ∧ (flags_agree c → flags_agree c').

(** What a successful login leaves: the token the service holds after it
    and the user payload of its result. *)
Definition login_outcome `{Host} (e : event) (s : Server) : option (value * value) :=
  match e with
  | Login u p b =>
      match login u p b (modxProxy s) with
      | (Ok r, c') =>
          if login_success r then Some (this_authToken (this c'), login_user r)
          else None
      | (Throw _, _) => None
      end
  | _ => None
  end.

(** The outcome of the most recent successful login along a sequence of
    events, [g] being the one before the sequence. *)
Fixpoint last_login `{Host} (es : list event) (s : Server) (g : option (value * value))
  : option (value * value) :=
  match es with
  | [] => g
  | e :: es' =>
      last_login es' (step e s)
        (match login_outcome e s with Some x => Some x | None => g end)
  end.

(** An authenticated session carries the token and the user payload of
    the login [g]. *)
Definition from_login (g : option (value * value)) (c : Client) : Prop :=
  this_isAuthenticated (this c) = true →
  g = Some (this_authToken (this c), user (this_sessionInfo (this c))).

(** Both authenticated flags are off. *)
Definition invalidated (c : Client) : Prop :=
  this_isAuthenticated (this c) = false
  ∧ isAuthenticated (this_sessionInfo (this c)) = false.


Definition not_authenticated : exn := Error "Not authenticated. Please login first.".
Definition session_expired : exn := Error "Session expired. Please login again.".

End Reasoning.

(** ** Vocabulary of the further properties *)

Module Coverage.
Import ModxProxy Index Reasoning.

(** Every character of [s] passes the test [P]. *)
Fixpoint all_chars (P : ascii -> bool) (s : string) : bool :=
  match s with
  | EmptyString => true
  | String c s' => P c && all_chars P s'
  end.


(** The five type names a generated property can carry. *)
Definition json_types : list string :=
  ["integer"; "boolean"; "string"; "array"; "object"].

(** The answer of the [tools/call] handler to a name it cannot serve. *)
Definition unknown_tool (name : string) (args : option (gmap string value))
  : CallToolResult :=
  {| content := FailureText ("Unknown tool: " +:+ name) name args; isError := true |}.

(** The answer of the [tools/call] handler when handling threw [e]. *)
Definition failure (e : exn) (name : string) (args : option (gmap string value))
  : CallToolResult :=
  {| content := FailureText (message_or "Unknown error" e) name args; isError := true |}.

(** The requests a client has sent. *)
Definition requests (c : Client) : list Request := sent (world c).

(** The request of [login]. *)
Definition login_request (s : Service) (username password : string) : Request :=
  {| url := this_baseUrl s +:+ this_connectorPath s;
     form := {[ "action" := VStr "security/login";
                "username" := VStr username;
                "password" := VStr password;
                "rememberme" := VStr "0";
                "format" := VStr "json" ]};
     referer := this_baseUrl s +:+ this_adminPath s;
     cookies := this_cookieJar s |}.

(** The request of [getProcessors]. *)
Definition discovery_request (s : Service) : Request :=
  {| url := this_baseUrl s +:+ this_modxMcpConnectorPath s;
     form := {[ "action" := VStr "data/index";
                "namespace" := VStr "modx-mcp";
                "format" := VStr "json";
                "HTTP_MODAUTH" := this_authToken s ]};
     referer := this_baseUrl s +:+ this_adminPath s;
     cookies := this_cookieJar s |}.

(** The request of [callProcessor]. *)
Definition call_request (s : Service) (action : string) (data_arg : gmap string value)
  : Request :=
  {| url := this_baseUrl s +:+ this_connectorPath s;
     form := data_arg ∪ {[ "action" := VStr action;
                           "format" := VStr "json";
                           "HTTP_MODAUTH" := this_authToken s ]};
     referer := this_baseUrl s +:+ this_adminPath s;
     cookies := this_cookieJar s |}.

(** The state after [this.sessionInfo.lastActivity = new Date()]. *)
Definition touched (c : Client) : Client :=
  {| this := set_sessionInfo (with_lastActivity (now (world c))
                                                (this_sessionInfo (this c))) (this c);
     world := world c |}.

(** The state after the two assignments of the 401/403 branch. *)
Definition invalidate (c : Client) : Client :=
  {| this := set_sessionInfo (with_isAuthenticated false (this_sessionInfo (this c)))
                             (set_isAuthenticated false (this c));
     world := world c |}.

(** The error that the [catch] block of [getProcessors] and
    [callProcessor] throws for the error it caught. *)
Definition surfaced (what : string) (e : exn) : exn :=
  match e with
  | AxiosError st msg =>
      if is_401_or_403 e then session_expired
      else Error ("HTTP error " +:+ from_option pretty "undefined" st +:+ ": " +:+ msg)
  | _ => Error (what +:+ ": " +:+ message_or "Unknown error" e)
  end.

(** The outcome of the next HTTP exchange: the head of the script, a
    network failure when there is none. *)
Definition next_outcome (c : Client) : res Response :=
  match script (world c) with
  | [] => Throw (AxiosError None "Network Error")
  | o :: _ => o
  end.

(** The state after one [httpClient.post] of the request [req]. *)
Definition after_post (c : Client) (req : Request) : Client :=
  let w := world c in
  let after rest := {| script := rest; sent := sent w ++ [req];
                       now := S (now w); jarFails := jarFails w |} in
  match script w with
  | [] => {| this := this c; world := after [] |}
  | Ok r :: rest =>
      {| this := set_cookieJar (this_cookieJar (this c) ++ setCookie r) (this c);
         world := after rest |}
  | Throw e :: rest => {| this := this c; world := after rest |}
  end.

(** The state after [login] has taken its [baseUrl] argument into
    account: a truthy one replaces the base URL, its trailing slash
    removed. *)
Definition rebased (baseUrl_arg : option string) (c : Client) : Client :=
  if truthy (from_option VStr VUndefined baseUrl_arg)
  then {| this := set_baseUrl (strip_trailing_slash (default "" baseUrl_arg)) (this c);
          world := world c |}
  else c.

(** The result of [login] when its [catch] block caught [e]. *)
Definition auth_error (e : exn) : LoginResult :=
  {| login_success := false;
     login_message :=
       VStr ("Authentication error: " +:+ message_or "Unknown authentication error" e);
     login_user := VUndefined;
     login_sessionInfo := None |}.

(** The state after [this.isAuthenticated = false]. *)
Definition signed_out (c : Client) : Client :=
  {| this := set_isAuthenticated false (this c); world := world c |}.

(** The session information that a successful [login] writes: [c0] is
    the state in which the request was built, [t] the time after the
    exchange, [result] the answer. *)
Definition session_of (c0 : Client) (t : nat) (result : value) : SessionInfo :=
  {| isAuthenticated := true;
     baseUrl := Some (this_baseUrl (this c0));
     connectorUrl := Some (this_baseUrl (this c0) +:+ this_connectorPath (this c0));
     user := or_else (get_prop_opt result "object") (get_prop_opt result "data");
     loginTime := Some t;
     lastActivity := Some t |}.

(** The state after the assignments of a successful [login], [c1] being
    the state after the exchange. *)
Definition signed_in (c0 c1 : Client) (result : value) : Client :=
  {| this := set_sessionInfo (session_of c0 (now (world c1)) result)
               (set_authToken
                  (or_else (get_prop_opt (get_prop_opt result "object") "token") (VStr ""))
                  (set_isAuthenticated true (this c1)));
     world := world c1 |}.

(** The result of a successful [login]. *)
Definition welcome (c0 c1 : Client) (result : value) : LoginResult :=
  {| login_success := true;
     login_message := VStr "Successfully authenticated with MODX";
     login_user := or_else (get_prop_opt result "object") (get_prop_opt result "data");
     login_sessionInfo := Some (session_of c0 (now (world c1)) result) |}.

(** The result of a [login] that the remote system refused. *)
Definition refusal (result : value) : LoginResult :=
  {| login_success := false;
     login_message := or_else (get_prop_opt result "message") (VStr "Authentication failed");
     login_user := VUndefined;
     login_sessionInfo := None |}.

(** The list that [getProcessors] builds from the [object] of an answer. *)
Definition list_of `{Host} (object : value) : ProcessorList :=
  {| processors := if truthy (get_prop_opt object "processors")
                   then as_processors (get_prop_opt object "processors") else [];
     total := or_else (get_prop_opt object "total") (VNum 0);
     generated_at := or_else (get_prop_opt object "generated_at") (VStr "unknown") |}.

(** The state with the list [found] in the client's cache. *)
Definition cached (found : ProcessorList) (c : Client) : Client :=
  {| this := set_processorCache (Some found) (this c); world := world c |}.

(** The value that [callProcessor] takes the body of a response for: the
    body itself, what [JSON.parse] makes of it when it is a string, or the
    raw-text object when [JSON.parse] rejects it. *)
Definition body_of `{Host} (response : Response) : value :=
  match parse_response (data response)
          (Ok (VObj [("success", VBool true); ("data", data response);
                     ("raw", VBool true)])) with
  | Ok result => result
  | Throw _ => VUndefined
  end.

(** The state after the three assignments that clear the session. *)
Definition cleared (c : Client) : Client :=
  {| this := set_sessionInfo no_session
               (set_authToken (VStr "") (set_isAuthenticated false (this c)));
     world := world c |}.

(** The state after the cookie jar was emptied. *)
Definition without_cookies (c : Client) : Client :=
  {| this := set_cookieJar [] (this c); world := world c |}.

(** The two results of [logout]. *)
Definition logged_out : LogoutResult :=
  {| logout_success := true; logout_message := "Successfully logged out from MODX" |}.
Definition logged_out_locally : LogoutResult :=
  {| logout_success := true; logout_message := "Logged out (session cleared locally)" |}.

(** At most one request was added to the requests of [c]. *)
Definition at_most_one_request (c c' : Client) : Prop :=
  requests c' = requests c ∨ ∃ req, requests c' = (requests c ++ [req])%list.

(** The base URL after [login] was given [baseUrl_arg]. *)
Definition new_baseUrl (baseUrl_arg : option string) (s : Service) : string :=
  match baseUrl_arg with
  | Some b => if String.eqb b "" then this_baseUrl s else strip_trailing_slash b
  | None => this_baseUrl s
  end.

End Coverage.

(** * Properties *)

Import ModxProxy Index Reasoning.
Local Open Scope string_scope.

(** ** Strings and the name mapping *)

Lemma map_chars_compose (f g : ascii -> ascii) (s : string) :
  map_chars f (map_chars g s) = map_chars (fun c => f (g c)) s.
Proof. induction s as [|c s IH]; simpl; [reflexivity | by rewrite IH]. Qed.

Lemma map_chars_ext (f g : ascii -> ascii) (s : string) :
  (∀ c, f c = g c) → map_chars f s = map_chars g s.
Proof. intros E. induction s as [|c s IH]; simpl; [reflexivity | by rewrite E, IH]. Qed.

Lemma normalize_char_two_passes (c : ascii) :
  (if matches_a_z0_9 (lower_char c) then lower_char c else "_"%char)
  = Spec.normalize_char c.
Proof. destruct c as [[] [] [] [] [] [] [] []]; reflexivity. Qed.

Lemma normalize_char_range (c : ascii) :
  matches_a_z0_9 (Spec.normalize_char c) = true ∨ Spec.normalize_char c = "_"%char.
Proof. destruct c as [[] [] [] [] [] [] [] []]; (by left) || (by right). Qed.

Lemma normalize_char_idempotent (c : ascii) :
  Spec.normalize_char (Spec.normalize_char c) = Spec.normalize_char c.
Proof. destruct c as [[] [] [] [] [] [] [] []]; reflexivity. Qed.

Lemma clean_is_normalize (s : string) :
  replace_non_a_z0_9 (toLowerCase s) = map_chars Spec.normalize_char s.
Proof.
  unfold replace_non_a_z0_9, toLowerCase. rewrite map_chars_compose.
  apply map_chars_ext, normalize_char_two_passes.
Qed.

Lemma startsWith_app (p s : string) : startsWith (p +:+ s) p = true.
Proof.
  induction p as [|a p IH]; simpl; [by destruct s|].
  by rewrite Ascii.eqb_refl, IH.
Qed.

Lemma tool_name_has_prefix (ns p : string) :
  startsWith (processorToToolName ns p) "modx_" = true.
Proof. unfold processorToToolName. apply startsWith_app. Qed.

(** C4: the code's tool-name mapping is the function the specification
    describes (lower-case, every character outside [a-z0-9] becomes '_',
    joined as modx_<namespace>_<path>), and it sends ("Core",
    "Resource/GetList") and ("core", "resource_getlist") to the same name. *)
Theorem processorToToolName_is_toToolName :
  (∀ namespace_ path_ : string,
     processorToToolName namespace_ path_ = Spec.toToolName namespace_ path_)
  ∧ processorToToolName "Core" "Resource/GetList" = "modx_core_resource_getlist"
  ∧ processorToToolName "Core" "Resource/GetList"
    = processorToToolName "core" "resource_getlist".
Proof.
  split; [|split; reflexivity].
  intros ns p. unfold processorToToolName, Spec.toToolName.
  rewrite !clean_is_normalize. reflexivity.
Qed.

(** ** Reverse lookup *)

Lemma find_processor_cons (toolName : string) (p : ProcessorInfo) (ps : list ProcessorInfo) :
  find_processor toolName (p :: ps)
  = if String.eqb (name_of p) toolName then Some (namespace p, path p)
    else find_processor toolName ps.
Proof. reflexivity. Qed.

Lemma find_processor_first (toolName : string) (ps : list ProcessorInfo) :
  (∃ e, e ∈ ps ∧ name_of e = toolName) →
  ∃ i d, ps !! i = Some d
         ∧ name_of d = toolName
         ∧ (∀ j e, j < i → ps !! j = Some e → name_of e ≠ toolName)
         ∧ find_processor toolName ps = Some (namespace d, path d).
Proof.
  induction ps as [|p ps IH]; intros (e & Hin & He).
  - by apply elem_of_nil in Hin.
  - rewrite find_processor_cons.
    destruct (String.eqb_spec (name_of p) toolName) as [Hp|Hp].
    + exists 0, p. split; [done|]. split; [done|]. split; [|done].
      intros j ? Hj. lia.
    + apply elem_of_cons in Hin as [->|Hin]; [done|].
      destruct IH as (i & d & Hi & Hd & Hfirst & Hfind); [by exists e|].
      exists (S i), d. split; [done|]. split; [done|]. split; [|done].
      intros [|j] e' Hj Hlook; simpl in Hlook.
      * by injection Hlook as <-.
      * apply (Hfirst j); [lia | done].
Qed.

Lemma find_processor_None (toolName : string) (ps : list ProcessorInfo) :
  (∀ e, e ∈ ps → name_of e ≠ toolName) → find_processor toolName ps = None.
Proof.
  induction ps as [|p ps IH]; intros Hall; [done|].
  rewrite find_processor_cons.
  destruct (String.eqb_spec (name_of p) toolName) as [Hp|Hp].
  - exfalso. apply (Hall p); [apply elem_of_cons; by left | done].
  - apply IH. intros e He. apply Hall, elem_of_cons. by right.
Qed.

(** C2, as the specification states it, fails: with two cached descriptors
    that share a tool name, resolving the name of the second yields the
    first. *)
Lemma round_trip_fails_on_collision :
  let cache := [Examples.getlist_mixed; Examples.getlist_plain] in
  let d := Examples.getlist_plain in
  d ∈ cache
  ∧ toolNameToProcessor (Some cache) (processorToToolName (namespace d) (path d))
    = Some ("Core", "Resource/GetList")
  ∧ toolNameToProcessor (Some cache) (processorToToolName (namespace d) (path d))
    ≠ Some (namespace d, path d).
Proof.
  split; [|split].
  - apply elem_of_cons; right. apply elem_of_cons; by left.
  - reflexivity.
  - discriminate.
Qed.

(** C2 (amended): resolving the tool name of a cached descriptor [d] yields
    the (namespace, path) of the first cached descriptor that has this tool
    name; it is the pair of [d] itself whenever every cached descriptor
    with this tool name has the namespace and path of [d]. *)
Theorem toolNameToProcessor_first_match (cache : list ProcessorInfo) (d : ProcessorInfo) :
  d ∈ cache →
  (∃ i d', cache !! i = Some d'
           ∧ name_of d' = name_of d
           ∧ (∀ j e, j < i → cache !! j = Some e → name_of e ≠ name_of d)
           ∧ toolNameToProcessor (Some cache) (name_of d)
             = Some (namespace d', path d'))
  ∧ ((∀ e, e ∈ cache → name_of e = name_of d →
           (namespace e, path e) = (namespace d, path d)) →
     toolNameToProcessor (Some cache) (name_of d) = Some (namespace d, path d)).
Proof.
  intros Hin.
  destruct (find_processor_first (name_of d) cache) as (i & d' & Hi & Hd & Hfirst & Hfind);
    [by exists d|].
  assert (Hres : toolNameToProcessor (Some cache) (name_of d)
                 = Some (namespace d', path d')).
  { unfold toolNameToProcessor, name_of at 1. by rewrite tool_name_has_prefix. }
  split.
  - by exists i, d'.
  - intros Huniq. rewrite Hres. f_equal. apply Huniq; [|done].
    by apply list_elem_of_lookup_2 in Hi.
Qed.

Lemma toolNameToProcessor_first_match_witness :
  Examples.getlist_plain ∈ [Examples.getlist_plain]
  ∧ toolNameToProcessor (Some [Examples.getlist_plain]) "modx_core_resource_getlist"
    = Some ("core", "resource_getlist").
Proof.
  assert (Hin : Examples.getlist_plain ∈ [Examples.getlist_plain])
    by (apply elem_of_cons; left; reflexivity).
  split; [exact Hin|].
  apply (toolNameToProcessor_first_match [Examples.getlist_plain] Examples.getlist_plain Hin).
  intros e He _. apply elem_of_cons in He as [->|He]; [reflexivity|].
  by apply elem_of_nil in He.
Defined.

(** ** Schema generation *)

Lemma is_true_iff (v : value) : is_true v = true ↔ v = VBool true.
Proof. destruct v as [| |[]| | | |]; simpl; split; congruence. Qed.

Lemma skipped_iff (p : Param) :
  skipped p = true ↔ param_name p = "" ∨ startsWith (param_name p) "_" = true.
Proof.
  unfold skipped. rewrite !orb_true_iff. split.
  - intros [[E|E]|E].
    + left. by apply String.eqb_eq.
    + right. apply String.eqb_eq in E. by rewrite E.
    + by right.
  - intros [E|E].
    + left; left. by apply String.eqb_eq.
    + by right.
Qed.

Lemma modxTypeToJsonSchemaType_spec (t : string) :
  modxTypeToJsonSchemaType t = Spec.json_type (toLowerCase t).
Proof.
  unfold modxTypeToJsonSchemaType, Spec.json_type.
  generalize (toLowerCase t). intros u.
  repeat match goal with
         | |- context [String.eqb u ?k] => destruct (String.eqb_spec u k) as [->|?]
         end;
    simpl; try reflexivity.
  repeat case_decide; try reflexivity; exfalso; intuition congruence.
Qed.

Lemma property_type_spec (p : Param) :
  prop_type (property_of p) = Spec.json_type (toLowerCase (param_type p)).
Proof.
  simpl. unfold str_or.
  destruct (String.eqb_spec (param_type p) "") as [->|_];
    [reflexivity | apply modxTypeToJsonSchemaType_spec].
Qed.

Lemma property_default_spec (p : Param) :
  (Spec.has_default (param_default p) →
   prop_default (property_of p) = Some (param_default p))
  ∧ (¬ Spec.has_default (param_default p) → prop_default (property_of p) = None).
Proof.
  unfold Spec.has_default. simpl.
  destruct (param_default p) as [| |b|n|s|l|f]; simpl;
    try (split; [reflexivity | intros Hn; exfalso; apply Hn; repeat split; discriminate]);
    try (split; [intros (?&?&?); congruence | reflexivity]).
  destruct (String.eqb_spec s "") as [->|Hs]; simpl.
  - split; [intros (?&?&?); congruence | reflexivity].
  - split; [reflexivity|]. intros Hn; exfalso; apply Hn. repeat split; congruence.
Qed.

(** What the loop over the parameters leaves in [properties] and in
    [required]. *)
Lemma loop_over_parameters (params : list Param) :
  let r := fold_left add_param params (∅, []) in
  (∀ k, r.1 !! k
        = property_of <$> last (filter (λ p, skipped p = false ∧ param_name p = k) params))
  ∧ r.2 = param_name
            <$> filter (λ p, skipped p = false ∧ is_true (param_required p) = true) params.
Proof.
  induction params as [|p params [IH1 IH2]] using rev_ind; [done|].
  cbn zeta. rewrite fold_left_app. cbn [fold_left].
  set (r := fold_left add_param params (∅, [])) in *. cbn zeta in IH1, IH2.
  unfold add_param. destruct (skipped p) eqn:Hsk.
  - split.
    + intros k. rewrite filter_app, filter_cons, filter_nil.
      rewrite decide_False by (intros [? _]; congruence).
      rewrite app_nil_r. apply IH1.
    + rewrite filter_app, filter_cons, filter_nil.
      rewrite decide_False by (intros [? _]; congruence).
      rewrite app_nil_r. apply IH2.
  - split.
    + intros k. rewrite filter_app, filter_cons, filter_nil.
      cbn [fst]. destruct (decide (param_name p = k)) as [<-|Hne].
      * rewrite lookup_insert_eq, decide_True by done.
        by rewrite last_snoc.
      * rewrite lookup_insert_ne by done.
        rewrite decide_False by (intros [_ ?]; done).
        rewrite app_nil_r. apply IH1.
    + rewrite filter_app, filter_cons, filter_nil.
      cbn [snd]. destruct (is_true (param_required p)) eqn:Hreq.
      * rewrite decide_True by done. rewrite fmap_app, IH2. reflexivity.
      * rewrite decide_False by (intros [_ ?]; congruence).
        rewrite app_nil_r. apply IH2.
Qed.

(** C5, as the specification states it, fails on [Examples.odd_processor]:
    the parameter with the empty name is not among those the
    specification excludes, yet it has no property and is not required;
    the type "INT" is none of the listed ones, yet it becomes integer; and
    of the two parameters named "id" only the second shapes the property,
    while the first alone is listed as required. *)
Lemma schema_claim_fails_on_odd_processor :
  let schema := inputSchema (createProcessorTool Examples.odd_processor) in
  Spec.excluded "" = false
  ∧ properties schema !! "" = None
  ∧ Spec.json_type "INT" = "string"
  ∧ prop_type <$> properties schema !! "limit" = Some "integer"
  ∧ Spec.json_type "integer" = "integer"
  ∧ properties schema !! "id"
    = Some {| prop_type := "string"; prop_description := "Parameter: id";
              prop_default := None |}
  ∧ required schema = Some ["id"]
  ∧ size (properties schema) = 2.
Proof. repeat split; vm_compute; reflexivity. Qed.

(** C5 (amended): the loop leaves out the parameters whose name is empty or
    begins with '_' (the reserved name is one of these); a key of
    [properties] is the name of a kept parameter and its entry is built
    from the last kept parameter of that name (so from the parameter
    itself when no other kept parameter has its name); the type of an
    entry is the enumerated mapping applied to the lower-cased parameter
    type; the default is attached exactly when it is defined, non-null and
    not the empty string; [required] lists, in order, the names of the
    kept parameters whose required flag is exactly [true]. *)
Theorem createProcessorTool_schema (processor : ProcessorInfo) :
  let params := default [] (parameters processor) in
  let schema := inputSchema (createProcessorTool processor) in
  (∀ p, skipped p = true ↔ param_name p = "" ∨ startsWith (param_name p) "_" = true)
  ∧ (∀ k, properties schema !! k
          = property_of
              <$> last (filter (λ p, skipped p = false ∧ param_name p = k) params))
  ∧ (∀ k, is_Some (properties schema !! k)
          ↔ ∃ p, p ∈ params ∧ skipped p = false ∧ param_name p = k)
  ∧ (∀ p, p ∈ params → skipped p = false →
          (∀ q, q ∈ params → skipped q = false → param_name q = param_name p → q = p) →
          properties schema !! param_name p = Some (property_of p))
  ∧ (∀ p, prop_type (property_of p) = Spec.json_type (toLowerCase (param_type p)))
  ∧ (∀ p, (Spec.has_default (param_default p) →
           prop_default (property_of p) = Some (param_default p))
          ∧ (¬ Spec.has_default (param_default p) →
             prop_default (property_of p) = None))
  ∧ required schema
    = Some (param_name
              <$> filter (λ p, skipped p = false ∧ is_true (param_required p) = true)
                         params)
  ∧ (∀ p, is_true (param_required p) = true ↔ param_required p = VBool true)
  ∧ schema_type schema = "object"
  ∧ additionalProperties schema = Some true.
Proof.
  cbn zeta.
  assert (Hloop := loop_over_parameters (default [] (parameters processor))).
  cbn zeta in Hloop. destruct Hloop as [Hprops Hreq].
  assert (Hschema :
    inputSchema (createProcessorTool processor)
    = {| schema_type := "object";
         properties := (fold_left add_param (default [] (parameters processor)) (∅, [])).1;
         required := Some (fold_left add_param (default [] (parameters processor)) (∅, [])).2;
         additionalProperties := Some true |}).
  { unfold createProcessorTool. destruct (parameters processor) as [params|]; simpl.
    - by destruct (fold_left add_param params (∅, [])).
    - reflexivity. }
  rewrite Hschema. cbn [properties required schema_type additionalProperties].
  split; [apply skipped_iff|].
  split; [apply Hprops|].
  split.
  { intros k. rewrite Hprops. rewrite fmap_is_Some, last_is_Some. split.
    - intros Hne.
      destruct (filter (λ p, skipped p = false ∧ param_name p = k)
                       (default [] (parameters processor))) as [|p l] eqn:Hf; [done|].
      assert (Hp : p ∈ filter (λ p, skipped p = false ∧ param_name p = k)
                              (default [] (parameters processor)))
        by (rewrite Hf; apply elem_of_cons; by left).
      apply list_elem_of_filter in Hp as [[? ?] ?]. by exists p.
    - intros (p & Hin & Hsk & Hk) Hnil.
      assert (Hp : p ∈ filter (λ p, skipped p = false ∧ param_name p = k)
                              (default [] (parameters processor)))
        by (apply list_elem_of_filter; done).
      rewrite Hnil in Hp. by apply elem_of_nil in Hp. }
  split.
  { intros p Hin Hsk Huniq. rewrite Hprops.
    destruct (last (filter (λ q, skipped q = false ∧ param_name q = param_name p)
                           (default [] (parameters processor)))) as [q|] eqn:Hlast.
    - apply last_Some_elem_of, list_elem_of_filter in Hlast as [[Hq Hn] Hqin].
      simpl. by rewrite (Huniq q Hqin Hq Hn).
    - apply last_None in Hlast.
      assert (Hp : p ∈ filter (λ q, skipped q = false ∧ param_name q = param_name p)
                              (default [] (parameters processor)))
        by (apply list_elem_of_filter; done).
      rewrite Hlast in Hp. by apply elem_of_nil in Hp. }
  split; [apply property_type_spec|].
  split; [apply property_default_spec|].
  split; [by rewrite Hreq|].
  split; [intros p; apply is_true_iff | done].
Qed.

(** ** Rules for stable programs *)

Section Stable.
Context {S : Type} (I : S -> S -> Prop) `{!Reflexive I, !Transitive I}.

Lemma stable_ret {A} (a : A) : stable I (ret a).
Proof using Type*. intros s. simpl. reflexivity. Qed.

Lemma stable_throw {A} (e : exn) : stable I (@throw S A e).
Proof using Type*. intros s. simpl. reflexivity. Qed.

Lemma stable_of_res {A} (r : res A) : stable I (@of_res S A r).
Proof using Type*. intros s. simpl. reflexivity. Qed.

Lemma stable_gets {A} (f : S -> A) : stable I (gets f).
Proof using Type*. intros s. simpl. reflexivity. Qed.

Lemma stable_modify (f : S -> S) : (∀ s, I s (f s)) → stable I (modify f).
Proof. intros Hf s. apply Hf. Qed.

Lemma stable_bind {A B} (p : prog S A) (k : A -> prog S B) :
  stable I p → (∀ a, stable I (k a)) → stable I (bind p k).
Proof using Type*.
  intros Hp Hk s. unfold bind. specialize (Hp s).
  destruct (p s) as [[a|e] s']; simpl in *; [|done].
  etrans; [exact Hp | apply Hk].
Qed.

Lemma stable_try_catch {A} (p : prog S A) (h : exn -> prog S A) :
  stable I p → (∀ e, stable I (h e)) → stable I (try_catch p h).
Proof using Type*.
  intros Hp Hh s. unfold try_catch. specialize (Hp s).
  destruct (p s) as [[a|e] s']; simpl in *; [done|].
  etrans; [exact Hp | apply Hh].
Qed.

End Stable.

Ltac stable_step :=
  lazymatch goal with
  | |- stable _ (bind _ _) => apply stable_bind; [apply _ | apply _ | | intros ?]
  | |- stable _ (try_catch _ _) => apply stable_try_catch; [apply _ | apply _ | | intros ?]
  | |- stable _ (ret _) => apply stable_ret; apply _
  | |- stable _ (throw _) => apply stable_throw; apply _
  | |- stable _ (of_res _) => apply stable_of_res; apply _
  | |- stable _ (gets _) => apply stable_gets; apply _
  | |- stable _ (if ?b then _ else _) => destruct b
  | |- stable _ (match ?x with _ => _ end) => destruct x
  | |- stable _ (let _ := _ in _) => cbn zeta
  end.

(** ** The session under the authenticated calls *)

#[local] Instance session_kept_refl : Reflexive session_kept.
Proof. intros c. unfold session_kept. done. Qed.

#[local] Instance session_kept_trans : Transitive session_kept.
Proof.
  intros a b c (T1 & U1 & A1 & F1) (T2 & U2 & A2 & F2). unfold session_kept.
  rewrite T2, T1, U2, U1. tauto.
Qed.

Lemma session_kept_update (f : Service -> Service) :
  (∀ s, this_authToken (f s) = this_authToken s
        ∧ user (this_sessionInfo (f s)) = user (this_sessionInfo s)
        ∧ this_isAuthenticated (f s) = this_isAuthenticated s
        ∧ isAuthenticated (this_sessionInfo (f s)) = isAuthenticated (this_sessionInfo s)) →
  stable session_kept (update f).
Proof.
  intros Hf. apply stable_modify. intros c.
  destruct (Hf (this c)) as (T & U & A & F).
  unfold session_kept, flags_agree. simpl. rewrite T, U, A, F. done.
Qed.

Lemma session_kept_post (u : string) (body : gmap string value) (ref : string) :
  stable session_kept (post u body ref).
Proof.
  intros c. unfold post, session_kept, flags_agree.
  destruct (script (world c)) as [|[r|e] rest]; simpl; done.
Qed.

Lemma session_kept_touch : stable session_kept touch.
Proof.
  intros c. unfold session_kept, flags_agree, touch, Date_now, update, bind, gets, modify.
  simpl. done.
Qed.

Lemma session_kept_on_call_error {A} (what : string) (error : exn) :
  stable session_kept (@on_call_error A what error).
Proof.
  intros c.
  unfold session_kept, flags_agree, on_call_error, update, bind, gets, modify, throw.
  destruct error as [st msg|msg|v];
    [destruct (is_401_or_403 (AxiosError st msg))|..]; simpl; done.
Qed.

Section Kept.
Context `{Host}.

Lemma session_kept_callProcessor (ns a : string) (d : gmap string value) :
  stable session_kept (callProcessor ns a d).
Proof.
  unfold callProcessor, processor_result. repeat stable_step;
    first [ apply session_kept_touch | apply session_kept_post
          | apply session_kept_on_call_error ].
Qed.

Lemma session_kept_getProcessors (refresh : bool) :
  stable session_kept (getProcessors refresh).
Proof.
  unfold getProcessors. repeat stable_step;
    first [ apply session_kept_touch | apply session_kept_post
          | apply session_kept_on_call_error
          | apply session_kept_update; intros s; simpl; done ].
Qed.

End Kept.

(** ** [getProcessors] without a session *)

(** C1, as the specification states it, fails: after login, discovery and
    logout the session is not authenticated, yet [getProcessors()] returns
    the two cached processors, sends nothing and changes nothing. *)
Lemma cached_list_served_without_session :
  this_isAuthenticated (this Examples.after_logout) = false
  ∧ (∃ cache, this_processorCache (this Examples.after_logout) = Some cache
              ∧ length (processors cache) = 2
              ∧ (@getProcessors Examples.demo_host false Examples.after_logout).1
                = Ok cache)
  ∧ (@getProcessors Examples.demo_host false Examples.after_logout).1
    ≠ Throw not_authenticated
  ∧ (@getProcessors Examples.demo_host false Examples.after_logout).2
    = Examples.after_logout.
Proof.
  split; [vm_compute; reflexivity|]. split; [|split].
  - eexists. split; [vm_compute; reflexivity|]. split; vm_compute; reflexivity.
  - vm_compute. discriminate.
  - vm_compute. reflexivity.
Qed.

(** C1 (amended): without a session, [getProcessors] fails with the
    "not authenticated" error, sending nothing, when a refresh is forced or
    no list is cached; when a list is cached and no refresh is forced it
    returns the cached list, whether or not the session is
    authenticated. *)
Theorem getProcessors_without_session `{Host} (c : Client) (refresh : bool) :
  this_isAuthenticated (this c) = false →
  (refresh = true ∨ this_processorCache (this c) = None →
   getProcessors refresh c = (Throw not_authenticated, c))
  ∧ (∀ cache, refresh = false → this_processorCache (this c) = Some cache →
     getProcessors refresh c = (Ok cache, c)).
Proof.
  intros Hauth. unfold getProcessors, bind, gets. split.
  - intros [->|Hnone].
    + rewrite Hauth. by destruct (this_processorCache (this c)).
    + rewrite Hnone, Hauth. reflexivity.
  - intros cache -> Hc. by rewrite Hc.
Qed.

Lemma getProcessors_without_session_witness :
  @getProcessors Examples.demo_host true Examples.after_logout
  = (Throw not_authenticated, Examples.after_logout).
Proof.
  apply (@getProcessors_without_session Examples.demo_host Examples.after_logout true);
    [vm_compute; reflexivity | left; reflexivity].
Defined.

(** ** The result of [callProcessor] *)

Lemma get_prop_defined (result : value) (k : string) :
  result ≠ VNull → result ≠ VUndefined →
  get_prop result k = Ok (default VUndefined (own_props result !! k)).
Proof. by destruct result. Qed.

Lemma decoded_parse `{Host} (d result : value) (on_error : res value) :
  decoded d result → parse_response d on_error = Ok result.
Proof.
  unfold decoded, parse_response. destruct d; by intros ->.
Qed.

Lemma processor_result_fields (result : value) (c : Client) :
  result ≠ VNull → result ≠ VUndefined →
  ∃ r, processor_result result c = (Ok r, c)
       ∧ r !! "success" = Some (default (VBool true) (own_props result !! "success"))
       ∧ r !! "data"
         = Some (match own_props result !! "data" with
                 | Some v => v
                 | None => or_else (default VUndefined (own_props result !! "object"))
                                   (default VUndefined (own_props result !! "results"))
                 end)
       ∧ (∀ k v, own_props result !! k = Some v → r !! k = Some v).
Proof.
  intros Hnull Hundef.
  unfold processor_result, bind, of_res, ret.
  rewrite !get_prop_defined by done.
  eexists. split; [reflexivity|].
  split; [|split].
  - rewrite lookup_union, lookup_insert_eq.
    by destruct (own_props result !! "success").
  - rewrite lookup_union.
    rewrite lookup_insert_ne, lookup_insert_ne, lookup_insert_eq by done.
    by destruct (own_props result !! "data").
  - intros k v Hk. by apply lookup_union_Some_l.
Qed.

(** C6, as the specification states it, fails: for an answer whose [data]
    is [null] and whose [object] is populated, the first populated field
    is [object], yet the result carries [data: null]. *)
Lemma null_data_is_passed_through :
  let c := Examples.logged_in [Examples.respond Examples.null_data] in
  let field := get_prop_opt Examples.null_data in
  Spec.first_populated (field "data") (field "object") (field "results")
  = VObj [("id", VNum 1)]
  ∧ match (@callProcessor Examples.demo_host "core" "resource/get" ∅ c).1 with
    | Ok r => r !! "data" = Some VNull
              ∧ r !! "data"
                ≠ Some (Spec.first_populated (field "data") (field "object")
                                             (field "results"))
              ∧ r !! "object" = Some (VObj [("id", VNum 1)])
    | Throw _ => False
    end.
Proof. cbn zeta. split; [reflexivity|]. vm_compute. repeat split. discriminate. Qed.

(** C6 (amended): for an authenticated session and an HTTP response whose
    body stands for a value other than [null], [callProcessor] returns a
    result object in which every field of the remote answer is passed
    through unchanged; so [success] is the remote [success] when the answer
    has one and [true] otherwise, and [data] is the remote [data] whenever
    the answer has that field (even empty), and otherwise [object] if
    populated, else [results].  A body that is not JSON yields the result
    [{success: true, data: <body>, raw: true}].  A body that stands for
    [null] yields no result: the call throws. *)
Theorem callProcessor_result `{Host} (c : Client) (ns a : string)
    (d : gmap string value) (resp : Response) (rest : list (res Response)) :
  this_isAuthenticated (this c) = true →
  script (world c) = Ok resp :: rest →
  (∀ result, decoded (data resp) result → result ≠ VNull → result ≠ VUndefined →
     ∃ r c', callProcessor ns a d c = (Ok r, c')
       ∧ r !! "success" = Some (default (VBool true) (own_props result !! "success"))
       ∧ r !! "data"
         = Some (match own_props result !! "data" with
                 | Some v => v
                 | None => or_else (default VUndefined (own_props result !! "object"))
                                   (default VUndefined (own_props result !! "results"))
                 end)
       ∧ (∀ k v, own_props result !! k = Some v → r !! k = Some v))
  ∧ (∀ body, data resp = VStr body → JSON_parse body = None →
     ∃ r c', callProcessor ns a d c = (Ok r, c')
       ∧ r !! "success" = Some (VBool true)
       ∧ r !! "data" = Some (VStr body)
       ∧ r !! "raw" = Some (VBool true))
  ∧ (decoded (data resp) VNull →
     ∃ c', callProcessor ns a d c
           = (Throw (Error ("Processor call failed: "
                            +:+ "Cannot read properties of null (reading 'success')")),
              c')).
Proof.
  intros Hauth Hscript.
  assert (Hrun : ∀ result,
    parse_response (data resp)
      (Ok (VObj [("success", VBool true); ("data", data resp); ("raw", VBool true)]))
    = Ok result →
    result ≠ VNull → result ≠ VUndefined →
    ∃ r c', callProcessor ns a d c = (Ok r, c')
      ∧ r !! "success" = Some (default (VBool true) (own_props result !! "success"))
      ∧ r !! "data"
        = Some (match own_props result !! "data" with
                | Some v => v
                | None => or_else (default VUndefined (own_props result !! "object"))
                                  (default VUndefined (own_props result !! "results"))
                end)
      ∧ (∀ k v, own_props result !! k = Some v → r !! k = Some v)).
  { intros result Hparse Hnull Hundef.
    unfold callProcessor, bind, gets, try_catch, touch, Date_now, update, modify,
      post, of_res.
    rewrite Hauth. cbn -[processor_result parse_response].
    rewrite Hscript. cbn -[processor_result parse_response].
    rewrite Hparse.
    match goal with
    | |- context [processor_result result ?c1] =>
        destruct (processor_result_fields result c1 Hnull Hundef)
          as (r & -> & Hs & Hd & Hall)
    end.
    by exists r; eexists. }
  split; [|split].
  - intros result Hdec. apply Hrun. by apply decoded_parse.
  - intros body Hbody Hparse.
    destruct (Hrun (VObj [("success", VBool true); ("data", VStr body);
                          ("raw", VBool true)]))
      as (r & c' & Hcall & Hs & Hd & Hall); [|done|done|].
    { unfold parse_response. by rewrite Hbody, Hparse. }
    exists r, c'. split; [done|].
    split; [|split].
    + apply Hall. by vm_compute.
    + apply Hall. by vm_compute.
    + apply Hall. by vm_compute.
  - intros Hdec.
    unfold callProcessor, bind, gets, try_catch, touch, Date_now, update, modify,
      post, of_res.
    rewrite Hauth. cbn -[processor_result parse_response].
    rewrite Hscript. cbn -[processor_result parse_response].
    rewrite (decoded_parse _ _ _ Hdec). cbn. by eexists.
Qed.

Lemma callProcessor_result_witness :
  let c := Examples.logged_in [Examples.respond (VStr "<html>")] in
  ∃ r c', @callProcessor Examples.demo_host "core" "resource/get" ∅ c = (Ok r, c')
          ∧ r !! "success" = Some (VBool true)
          ∧ r !! "data" = Some (VStr "<html>")
          ∧ r !! "raw" = Some (VBool true).
Proof.
  cbn zeta.
  apply (@callProcessor_result Examples.demo_host
           (Examples.logged_in [Examples.respond (VStr "<html>")])
           "core" "resource/get" ∅
           {| data := VStr "<html>"; setCookie := [] |} []);
    [vm_compute; reflexivity | vm_compute; reflexivity | reflexivity | reflexivity].
Defined.

(** ** Login with rejected credentials *)

Lemma get_prop_total (result : value) (k k' : string) (v : value) :
  get_prop result k = Ok v → ∃ v', get_prop result k' = Ok v'.
Proof. destruct result; simpl; intros E; try discriminate; eauto. Qed.

(** C7, as the specification states it, fails: when a login is refused
    after an earlier one had succeeded, the call reports failure and the
    service's own flag is off, but the token T1 of the earlier login is
    still there (and the session information still says authenticated). *)
Lemma refused_login_keeps_earlier_token :
  let c := Examples.logged_in [Examples.respond Examples.login_refused] in
  let out := @login Examples.demo_host "admin" "wrong" None c in
  login_success <$> (match out.1 with Ok r => Some r | Throw _ => None end) = Some false
  ∧ this_isAuthenticated (this out.2) = false
  ∧ this_authToken (this out.2) = VStr "T1"
  ∧ this_authToken (this out.2) ≠ VStr ""
  ∧ isAuthenticated (this_sessionInfo (this out.2)) = true.
Proof. cbn zeta. repeat split; vm_compute; (reflexivity || discriminate). Qed.

(** C7 (amended): when the remote system answers a login with a [success]
    that is not truthy, [login] returns a result with [success == false]
    and the service's authenticated flag is false afterwards; the token is
    left as it was, so it is empty when no login had succeeded since the
    start or the last logout, and is the earlier login's token otherwise. *)
Theorem login_rejected `{Host} (c : Client) (username password : string)
    (baseUrl_arg : option string) (resp : Response) (rest : list (res Response))
    (result success : value) :
  script (world c) = Ok resp :: rest →
  decoded (data resp) result →
  get_prop result "success" = Ok success →
  truthy success = false →
  ∃ r c', login username password baseUrl_arg c = (Ok r, c')
          ∧ login_success r = false
          ∧ this_isAuthenticated (this c') = false
          ∧ this_authToken (this c') = this_authToken (this c)
          ∧ (this_authToken (this c) = VStr "" → this_authToken (this c') = VStr "").
Proof.
  intros Hscript Hdec Hsucc Hfalsy.
  destruct (get_prop_total result "success" "message" success Hsucc) as [m Hm].
  unfold login, try_catch, bind, gets, when, update, modify, post, of_res, ret.
  destruct (truthy (from_option VStr VUndefined baseUrl_arg));
    cbn -[parse_response get_prop]; rewrite Hscript; cbn -[parse_response get_prop];
    rewrite (decoded_parse _ _ _ Hdec); cbn -[get_prop];
    rewrite Hsucc; cbn -[get_prop]; rewrite Hfalsy; cbn -[get_prop];
    rewrite Hm; cbn; do 2 eexists; repeat split; done.
Qed.

Lemma login_rejected_witness :
  ∃ r c', @login Examples.demo_host "admin" "wrong" None
            (modxProxy (Examples.fresh [Examples.respond Examples.login_refused]))
          = (Ok r, c')
          ∧ login_success r = false
          ∧ this_isAuthenticated (this c') = false
          ∧ this_authToken (this c') = VStr "".
Proof.
  destruct (@login_rejected Examples.demo_host
              (modxProxy (Examples.fresh [Examples.respond Examples.login_refused]))
              "admin" "wrong" None
              {| data := Examples.login_refused; setCookie := [] |} []
              Examples.login_refused (VBool false))
    as (r & c' & Hrun & Hs & Ha & _ & Ht);
    [reflexivity | reflexivity | vm_compute; reflexivity | reflexivity |].
  exists r, c'. repeat split; try assumption. apply Ht. reflexivity.
Defined.

(** ** Logout *)

Lemma clear_session_clears (c : Client) :
  ∃ c', clear_session c = (Ok tt, c')
        ∧ this_isAuthenticated (this c') = false
        ∧ this_authToken (this c') = VStr ""
        ∧ this_sessionInfo (this c') = no_session
        ∧ world c' = world c.
Proof. eexists. split; [reflexivity|]. done. Qed.

(** C8: [logout] always returns, with [success == true], whatever the
    remote call and the cookie store do, and afterwards the authenticated
    flag is false, the token is the empty string and the session
    information is the cleared one. *)
Theorem logout_always_succeeds `{Host} (c : Client) :
  ∃ r c', logout c = (Ok r, c')
          ∧ logout_success r = true
          ∧ this_isAuthenticated (this c') = false
          ∧ this_authToken (this c') = VStr ""
          ∧ this_sessionInfo (this c') = no_session.
Proof.
  unfold logout, try_catch. unfold bind at 1, gets at 1.
  set (first := if this_isAuthenticated (this c)
                then bind (callProcessor "core" "security/logout" ∅) (λ _, ret tt)
                else ret tt).
  unfold bind at 1.
  destruct (first c) as [[[]|e] c1].
  - unfold bind at 1.
    destruct (clear_session_clears c1) as (c2 & -> & Ha & Ht & Hi & Hw).
    unfold bind, removeAllCookies. destruct (jarFails (world c2)).
    + destruct (clear_session_clears c2) as (c3 & -> & Ha3 & Ht3 & Hi3 & _).
      by do 2 eexists.
    + by do 2 eexists.
  - unfold bind at 1.
    destruct (clear_session_clears c1) as (c2 & -> & Ha & Ht & Hi & Hw).
    by do 2 eexists.
Qed.

(** ** The two request handlers *)

Section Dispatcher.
Context `{Host}.

(** [getAllTools], case by case. *)
Lemma getAllTools_cases (s : Server) :
  getAllTools s
  = if negb (isAuthenticated (this_sessionInfo (this (modxProxy s))))
    then (Ok baseTools, s)
    else match processorsCache s with
         | Some ps => (Ok (baseTools ++ map createProcessorTool ps)%list, s)
         | None =>
             match getProcessors false (modxProxy s) with
             | (Ok found, c') =>
                 (Ok (baseTools ++ map createProcessorTool (processors found))%list,
                  {| modxProxy := c'; processorsCache := Some (processors found) |})
             | (Throw e, c') =>
                 (Ok baseTools, {| modxProxy := c'; processorsCache := None |})
             end
         end.
Proof.
  destruct s as [c cache].
  unfold getAllTools, bind, lift, getSessionInfo, gets, try_catch,
    set_processorsCache, modify, ret. cbn -[getProcessors baseTools].
  destruct (isAuthenticated (this_sessionInfo (this c))); [|reflexivity].
  cbn -[getProcessors baseTools]. destruct cache as [ps|]; [reflexivity|].
  cbn -[getProcessors baseTools].
  by destruct (getProcessors false c) as [[found|e] c'].
Qed.

Lemma lift_cache {A} (p : prog Client A) (s : Server) :
  processorsCache (lift p s).2 = processorsCache s.
Proof. unfold lift. by destruct (p (modxProxy s)). Qed.

Lemma lift_client {A} (p : prog Client A) (s : Server) :
  modxProxy (lift p s).2 = (p (modxProxy s)).2.
Proof. unfold lift. by destruct (p (modxProxy s)). Qed.





End Dispatcher.

(** ** The two authenticated flags *)

Section Flags.
Context `{Host}.

Lemma login_flags (username password : string) (baseUrl_arg : option string)
    (c : Client) :
  flags_agree (login username password baseUrl_arg c).2.
Proof.
  unfold flags_agree, login, try_catch, bind, gets, when, update, modify, post,
    of_res, ret, Date_now.
  destruct (truthy (from_option VStr VUndefined baseUrl_arg));
    cbn -[parse_response get_prop];
    (destruct (script (world c)) as [|[resp|e] rest]; cbn -[parse_response get_prop];
     [done| |done]);
    (destruct (parse_response (data resp) _) as [result|e];
     cbn -[get_prop]; [|done]);
    (destruct (get_prop result "success") as [success|e] eqn:Hs;
     cbn -[get_prop]; [|done]);
    (destruct (truthy success); cbn -[get_prop]);
    repeat (match goal with
            | |- context [get_prop result ?k] =>
                destruct (get_prop result k); cbn -[get_prop]
            end);
    done.
Qed.

Lemma logout_off (c : Client) : this_isAuthenticated (this (logout c).2) = false.
Proof.
  unfold logout, try_catch. unfold bind at 1, gets at 1.
  set (first := if this_isAuthenticated (this c)
                then bind (callProcessor "core" "security/logout" ∅) (λ _, ret tt)
                else ret tt).
  unfold bind at 1.
  destruct (first c) as [[[]|e] c1]; [|reflexivity].
  unfold bind, clear_session, removeAllCookies, update, modify, ret. cbn.
  by destruct (jarFails (world c1)).
Qed.

Lemma logout_flags (c : Client) : flags_agree (logout c).2.
Proof. unfold flags_agree. by rewrite logout_off. Qed.

Lemma callTool_client (name : string) (args : option (gmap string value)) (s : Server) :
  modxProxy (callTool name args s).2 = modxProxy s
  ∨ ∃ ns a d, modxProxy (callTool name args s).2 = (callProcessor ns a d (modxProxy s)).2.
Proof.
  unfold callTool, try_catch, bind, gets, getSessionInfo, throw, ret.
  destruct (String.eqb name "modx_get_session_info"); [by left|].
  cbn -[toolNameToProcessor callProcessor].
  destruct (if startsWith name "modx_"
            then toolNameToProcessor (processorsCache s) name else None)
    as [[ns a]|]; [|by left].
  right. exists ns, a, (default ∅ args).
  pose proof (lift_client (callProcessor ns a (default ∅ args)) s) as Hc.
  by destruct (lift (callProcessor ns a (default ∅ args)) s) as [[r|e] s'].
Qed.

Lemma step_flags (e : event) (s : Server) :
  flags_agree (modxProxy s) → flags_agree (modxProxy (step e s)).
Proof.
  intros Hs. destruct e; simpl.
  - unfold listTools. rewrite getAllTools_cases.
    destruct (negb _); [done|]. destruct (processorsCache s); [done|].
    pose proof (session_kept_getProcessors false (modxProxy s)) as (_ & _ & _ & Hk).
    destruct (getProcessors false (modxProxy s)) as [[found|err] c']; by apply Hk.
  - destruct (callTool_client name args s) as [->|(ns & a & d & ->)]; [done|].
    by apply session_kept_callProcessor.
  - rewrite lift_client. apply login_flags.
  - rewrite lift_client. apply logout_flags.
  - rewrite lift_client. by apply session_kept_getProcessors.
Qed.

Lemma run_flags (es : list event) (s : Server) :
  flags_agree (modxProxy s) → flags_agree (modxProxy (run es s)).
Proof.
  revert s. induction es as [|e es IH]; intros s Hs; [done|].
  apply (IH (step e s)). by apply step_flags.
Qed.

Lemma login_cases (username password : string) (baseUrl_arg : option string)
    (c : Client) :
  ∃ r c', login username password baseUrl_arg c = (Ok r, c')
          ∧ ((login_success r = true
              ∧ this_isAuthenticated (this c') = true
              ∧ user (this_sessionInfo (this c')) = login_user r)
             ∨ (login_success r = false ∧ this_isAuthenticated (this c') = false)).
Proof.
  unfold login, try_catch, bind, gets, when, update, modify, post,
    of_res, ret, Date_now.
  destruct (truthy (from_option VStr VUndefined baseUrl_arg));
    cbn -[parse_response get_prop];
    (destruct (script (world c)) as [|[resp|e] rest]; cbn -[parse_response get_prop];
     [by do 2 eexists; split; [|right]| |by do 2 eexists; split; [|right]]);
    (destruct (parse_response (data resp) _) as [result|e];
     cbn -[get_prop]; [|by do 2 eexists; split; [|right]]);
    (destruct (get_prop result "success") as [success|e] eqn:Hs;
     cbn -[get_prop]; [|by do 2 eexists; split; [|right]]);
    (destruct (truthy success); cbn -[get_prop]);
    repeat (match goal with
            | |- context [get_prop result ?k] =>
                destruct (get_prop result k); cbn -[get_prop]
            end);
    do 2 eexists; (split; [reflexivity|]); (by left) || (by right).
Qed.

Lemma step_from_login (e : event) (s : Server) (g : option (value * value)) :
  from_login g (modxProxy s) →
  from_login (match login_outcome e s with Some x => Some x | None => g end)
             (modxProxy (step e s)).
Proof.
  intros Hg.
  assert (Hkept : ∀ c', session_kept (modxProxy s) c' → from_login g c').
  { intros c' (T & U & A & _) Hauth. rewrite T, U. by apply Hg, A. }
  destruct e; simpl.
  - unfold listTools. rewrite getAllTools_cases.
    destruct (negb _); [done|]. destruct (processorsCache s); [done|].
    pose proof (session_kept_getProcessors false (modxProxy s)) as Hk.
    destruct (getProcessors false (modxProxy s)) as [[found|err] c']; by apply Hkept.
  - destruct (callTool_client name args s) as [->|(ns & a & d & ->)]; [done|].
    apply Hkept, session_kept_callProcessor.
  - rewrite lift_client.
    destruct (login_cases username password baseUrl_arg (modxProxy s))
      as (r & c' & -> & [(-> & Ha & Hu)|(-> & Ha)]); simpl; intros Hauth.
    + by rewrite Hu.
    + congruence.
  - rewrite lift_client. intros Hauth.
    pose proof (logout_off (modxProxy s)) as Hoff. congruence.
  - rewrite lift_client. apply Hkept, session_kept_getProcessors.
Qed.

Lemma run_from_login (es : list event) (s : Server) (g : option (value * value)) :
  from_login g (modxProxy s) →
  from_login (last_login es s g) (modxProxy (run es s)).
Proof.
  revert s g. induction es as [|e es IH]; intros s g Hg; [done|].
  apply (IH (step e s)). by apply step_from_login.
Qed.

End Flags.

(** ** A 401 or 403 during an authenticated call *)

Lemma is_401_or_403_true (st : Z) (msg : string) :
  st = 401%Z ∨ st = 403%Z → is_401_or_403 (AxiosError (Some st) msg) = true.
Proof. intros [->| ->]; reflexivity. Qed.

Lemma on_call_error_unauthorized {A} (what : string) (e : exn) (c : Client) :
  is_401_or_403 e = true →
  @on_call_error A what e c
  = (Throw session_expired,
     {| this := set_sessionInfo (with_isAuthenticated false (this_sessionInfo (this c)))
                                (set_isAuthenticated false (this c));
        world := world c |}).
Proof.
  intros He. unfold on_call_error. destruct e as [st msg|msg|v]; [|done..].
  rewrite He. reflexivity.
Qed.

(** C3, as the specification states it, fails: a 401 during
    [callProcessor] turns both authenticated flags off but leaves the
    token T1 and the user payload of the login in place. *)
Lemma unauthorized_keeps_token_and_user :
  let c := Examples.logged_in [Examples.unauthorized] in
  let c' := (@callProcessor Examples.demo_host "core" "resource/getlist" ∅ c).2 in
  this_isAuthenticated (this c) = true
  ∧ (@callProcessor Examples.demo_host "core" "resource/getlist" ∅ c).1
    = Throw session_expired
  ∧ invalidated c'
  ∧ this_authToken (this c') = VStr "T1"
  ∧ this_authToken (this c') ≠ VStr ""
  ∧ user (this_sessionInfo (this c'))
    = VObj [("token", VStr "T1"); ("username", VStr "admin")]
  ∧ user (this_sessionInfo (this c')) ≠ VUndefined.
Proof.
  cbn zeta. unfold invalidated.
  repeat split; vm_compute; (reflexivity || discriminate).
Qed.

(** C3 (amended): when an authenticated call ([callProcessor], or a
    [getProcessors] that goes to the remote system) is answered by HTTP 401
    or 403, it fails with "session expired" and both authenticated flags
    (the service's and the session information's) are false afterwards; the
    token and the user payload are left as they were.  Whatever the
    outcome of either call, token and user payload are unchanged and the
    authenticated flag is never turned on; and along any sequence of
    events, a session that is authenticated carries the token and the user
    payload of the most recent successful login. *)
Theorem unauthorized_invalidates_session `{Host} :
  (∀ c st msg rest,
     this_isAuthenticated (this c) = true →
     script (world c) = Throw (AxiosError (Some st) msg) :: rest →
     st = 401%Z ∨ st = 403%Z →
     (∀ ns a d,
        (callProcessor ns a d c).1 = Throw session_expired
        ∧ invalidated (callProcessor ns a d c).2)
     ∧ (∀ refresh, refresh = true ∨ this_processorCache (this c) = None →
        (getProcessors refresh c).1 = Throw session_expired
        ∧ invalidated (getProcessors refresh c).2))
  ∧ (∀ ns a d c, session_kept c (callProcessor ns a d c).2)
  ∧ (∀ refresh c, session_kept c (getProcessors refresh c).2)
  ∧ (∀ es s g, from_login g (modxProxy s) →
       from_login (last_login es s g) (modxProxy (run es s))).
Proof.
  split; [|split; [|split]].
  - intros c st msg rest Hauth Hscript Hst.
    pose proof (is_401_or_403_true st msg Hst) as H401.
    split.
    + intros ns a d.
      unfold callProcessor, invalidated, bind, gets, try_catch, touch, Date_now,
        update, modify, post.
      rewrite Hauth. cbn -[on_call_error]. rewrite Hscript. cbn -[on_call_error].
      rewrite on_call_error_unauthorized by done. cbn. done.
    + intros refresh Hfetch.
      unfold getProcessors, invalidated, bind, gets, try_catch, touch, Date_now,
        update, modify, post.
      destruct Hfetch as [->|Hnone];
        [destruct (this_processorCache (this c)) | rewrite Hnone];
        rewrite Hauth; cbn -[on_call_error]; rewrite Hscript; cbn -[on_call_error];
        rewrite on_call_error_unauthorized by done; cbn; done.
  - intros ns a d c. apply session_kept_callProcessor.
  - intros refresh c. apply session_kept_getProcessors.
  - intros es s g. apply run_from_login.
Qed.

Lemma unauthorized_invalidates_session_witness :
  let c := Examples.logged_in [Examples.unauthorized] in
  (@callProcessor Examples.demo_host "core" "resource/getlist" ∅ c).1
  = Throw session_expired.
Proof.
  cbn zeta.
  destruct (@unauthorized_invalidates_session Examples.demo_host) as (H401 & _).
  apply (H401 (Examples.logged_in [Examples.unauthorized]) 401%Z
              "Request failed with status code 401" []);
    [vm_compute; reflexivity | vm_compute; reflexivity | left; reflexivity].
Defined.


(** C9: a [tools/list] in a session that is not authenticated (so at
    start, before any login) returns the session-info tool alone and
    leaves the whole state, requests sent included, as it was; in an
    authenticated session whose dispatcher cache holds N descriptors it
    returns N+1 tools, the fixed one followed by the generated tool of each
    descriptor in cache order; with an empty dispatcher cache it makes one
    discovery call, returns the same shape for the descriptors found, and
    returns the fixed tool alone if the discovery fails.  The session
    information is what [tools/list] consults; in every state reached from
    the start a service that holds itself authenticated says so there. *)
Theorem listTools_count `{Host} (s : Server) :
  (∀ b c a w, listTools (start b c a w) = (Ok [session_info_tool], start b c a w))
  ∧ (isAuthenticated (this_sessionInfo (this (modxProxy s))) = false →
     listTools s = (Ok [session_info_tool], s))
  ∧ (isAuthenticated (this_sessionInfo (this (modxProxy s))) = true →
     (∀ ps, processorsCache s = Some ps →
        listTools s = (Ok (session_info_tool :: map createProcessorTool ps), s)
        ∧ length (session_info_tool :: map createProcessorTool ps) = S (length ps))
     ∧ (∀ found c', processorsCache s = None →
        getProcessors false (modxProxy s) = (Ok found, c') →
        listTools s
        = (Ok (session_info_tool :: map createProcessorTool (processors found)),
           {| modxProxy := c'; processorsCache := Some (processors found) |})
        ∧ length (session_info_tool :: map createProcessorTool (processors found))
          = S (length (processors found)))
     ∧ (∀ e c', processorsCache s = None →
        getProcessors false (modxProxy s) = (Throw e, c') →
        listTools s = (Ok [session_info_tool],
                       {| modxProxy := c'; processorsCache := None |})))
  ∧ (∀ es b c a w, flags_agree (modxProxy (run es (start b c a w)))).
Proof.
  unfold listTools. split; [|split; [|split]]; [| | |by intros; apply run_flags].
  - intros b c a w. by rewrite getAllTools_cases.
  - intros Hno. by rewrite getAllTools_cases, Hno.
  - intros Hyes. split; [|split].
    + intros ps Hps. rewrite getAllTools_cases, Hyes, Hps. simpl.
      by rewrite length_map.
    + intros found c' Hnone Hget. rewrite getAllTools_cases, Hyes, Hnone, Hget. simpl.
      by rewrite length_map.
    + intros e c' Hnone Hget. by rewrite getAllTools_cases, Hyes, Hnone, Hget.
Qed.

Lemma listTools_count_witness :
  isAuthenticated (this_sessionInfo (this (modxProxy Examples.discovered))) = true
  ∧ (∃ ps, processorsCache Examples.discovered = Some ps
           ∧ length ps = 2
           ∧ @listTools Examples.demo_host Examples.discovered
             = (Ok (session_info_tool :: map createProcessorTool ps), Examples.discovered)).
Proof.
  assert (Hauth : isAuthenticated (this_sessionInfo (this (modxProxy Examples.discovered)))
                  = true) by (vm_compute; reflexivity).
  split; [exact Hauth|].
  eexists. split; [vm_compute; reflexivity|]. split; [reflexivity|].
  destruct (@listTools_count Examples.demo_host Examples.discovered)
    as (_ & _ & Hin & _).
  destruct (Hin Hauth) as (Hcached & _).
  apply Hcached. vm_compute; reflexivity.
Defined.




(** * Further properties of the code *)

Import Coverage.

(** ** Strings and paths *)

Lemma rev_app_append (s u t : string) :
  String.rev_app (s +:+ u) t = String.rev_app u (String.rev_app s t).
Proof. revert t. induction s as [|a s IH]; intros t; simpl; [done | apply IH]. Qed.

Lemma rev_snoc (s : string) (a : ascii) :
  String.rev (s +:+ String a "") = String a (String.rev s).
Proof. unfold String.rev. by rewrite rev_app_append. Qed.

Lemma append_empty_r (s : string) : s +:+ "" = s.
Proof.
  induction s as [|a s IH]; [done|].
  change (String a (s +:+ "") = String a s). by f_equal.
Qed.

Lemma rev_app_rev_app (s t u : string) :
  String.rev_app (String.rev_app s t) u = String.rev_app t (s +:+ u).
Proof. revert t. induction s as [|a s IH]; intros t; simpl; [done | by rewrite IH]. Qed.

Lemma rev_involutive (s : string) : String.rev (String.rev s) = s.
Proof. unfold String.rev. rewrite rev_app_rev_app. simpl. apply append_empty_r. Qed.

Lemma startsWith_slash (s : string) :
  startsWith s "/" = true ↔ ∃ r, s = String "/" r.
Proof.
  split.
  - destruct s as [|a r]; [done|].
    cbn [startsWith]. destruct (Ascii.eqb_spec "/" a) as [<-|]; [|done].
    intros _. by exists r.
  - intros [r ->]. by destruct r.
Qed.

Lemma endsWith_slash (s : string) :
  endsWith s "/" = true ↔ ∃ t, s = t +:+ "/".
Proof.
  unfold endsWith. change (String.rev "/") with "/". rewrite startsWith_slash. split.
  - intros [r Hr]. exists (String.rev r).
    rewrite <- (rev_involutive s), Hr.
    rewrite <- (rev_involutive (String.rev r +:+ "/")).
    by rewrite rev_snoc, rev_involutive.
  - intros [t ->]. exists (String.rev t). apply rev_snoc.
Qed.

Lemma strip_trailing_slash_snoc (t : string) : strip_trailing_slash (t +:+ "/") = t.
Proof.
  unfold strip_trailing_slash.
  assert (E : endsWith (t +:+ "/") "/" = true) by (apply endsWith_slash; by exists t).
  rewrite E, rev_snoc. cbn [substring_from]. apply rev_involutive.
Qed.

(** [baseUrl.replace(/\/$/, '')] removes one trailing slash and nothing
    else: a string that ends with a slash loses exactly that character, any
    other string is returned as it is. *)
Theorem strip_trailing_slash_spec (s : string) :
  (∀ t, s = t +:+ "/" → strip_trailing_slash s = t)
  ∧ (endsWith s "/" = false → strip_trailing_slash s = s)
  ∧ (strip_trailing_slash s = s ∨ strip_trailing_slash s +:+ "/" = s).
Proof.
  split; [|split].
  - intros t ->. apply strip_trailing_slash_snoc.
  - intros E. unfold strip_trailing_slash. by rewrite E.
  - destruct (endsWith s "/") eqn:E.
    + right. apply endsWith_slash in E as [t ->]. by rewrite strip_trailing_slash_snoc.
    + left. unfold strip_trailing_slash. by rewrite E.
Qed.

Lemma startsWith_empty (s : string) : startsWith s "" = true.
Proof. by destruct s. Qed.

Lemma startsWith_append (s u p : string) :
  startsWith s p = true → startsWith (s +:+ u) p = true.
Proof.
  revert s. induction p as [|a p IH]; intros s; [by rewrite !startsWith_empty|].
  destruct s as [|b s]; [done|]. cbn [startsWith].
  change (String b s +:+ u) with (String b (s +:+ u)). cbn [startsWith].
  intros [-> Hs]%andb_true_iff. by rewrite IH.
Qed.

Lemma normalizePath_cases (p : string) :
  (normalizePath p = p ∧ startsWith p "/" = true ∧ endsWith p "/" = true)
  ∨ (normalizePath p = p +:+ "/" ∧ startsWith p "/" = true)
  ∨ (normalizePath p = "/" +:+ p ∧ endsWith ("/" +:+ p) "/" = true)
  ∨ normalizePath p = ("/" +:+ p) +:+ "/".
Proof.
  unfold normalizePath. cbv zeta.
  destruct (startsWith p "/") eqn:E1; cbn [negb].
  - destruct (endsWith p "/") eqn:E2; cbn [negb]; auto.
  - destruct (endsWith ("/" +:+ p) "/") eqn:E2; cbn [negb]; auto.
Qed.

Lemma normalizePath_slashes (p : string) :
  startsWith (normalizePath p) "/" = true ∧ endsWith (normalizePath p) "/" = true.
Proof.
  assert (Hsnoc : ∀ q, endsWith (q +:+ "/") "/" = true)
    by (intros q; apply endsWith_slash; by eexists).
  split.
  - destruct (normalizePath_cases p) as [(-> & ? & ?)|[(-> & ?)|[(-> & ?)| ->]]];
      [done | by apply startsWith_append | apply startsWith_app
       | apply startsWith_append, startsWith_app].
  - destruct (normalizePath_cases p) as [(-> & ? & ?)|[(-> & ?)|[(-> & ?)| ->]]];
      [done | apply Hsnoc | done | apply Hsnoc].
Qed.

(** [normalizePath] returns a path that starts and ends with a slash,
    whatever it is given (the empty path becomes "/"); it adds at most one
    slash on each side, leaves a path that already has both as it is, and
    applying it twice is applying it once. *)
Theorem normalizePath_spec (p : string) :
  startsWith (normalizePath p) "/" = true
  ∧ endsWith (normalizePath p) "/" = true
  ∧ (startsWith p "/" = true → endsWith p "/" = true → normalizePath p = p)
  ∧ normalizePath (normalizePath p) = normalizePath p
  ∧ normalizePath "" = "/"
  ∧ (∃ a b, (a = "" ∨ a = "/") ∧ (b = "" ∨ b = "/")
            ∧ normalizePath p = a +:+ p +:+ b).
Proof.
  assert (Hfix : ∀ q, startsWith q "/" = true → endsWith q "/" = true →
                      normalizePath q = q).
  { intros q H1 H2. unfold normalizePath. cbv zeta. rewrite H1. cbn [negb].
    by rewrite H2. }
  destruct (normalizePath_slashes p) as [Hs He].
  split; [done|]. split; [done|]. split; [apply Hfix|]. split; [by apply Hfix|].
  split; [reflexivity|].
  destruct (normalizePath_cases p) as [(-> & ? & ?)|[(-> & ?)|[(-> & ?)| ->]]].
  - exists "", "". rewrite append_empty_r. auto.
  - exists "", "/". auto.
  - exists "/", "". rewrite append_empty_r. auto.
  - exists "/", "/". auto.
Qed.

(** For every environment the constructor yields a service that is not
    authenticated, has an empty token and no cached list, and whose
    connector and admin paths start and end with a slash; an unset or
    empty variable gives the defaults [http://localhost], [/connectors/]
    and [/manager/], and a base URL that is set is kept exactly as
    given. *)
Theorem constructor_spec (MODX_BASE_URL MODX_CONNECTOR_PATH MODX_ADMIN_PATH
    : option string) :
  let s := constructor MODX_BASE_URL MODX_CONNECTOR_PATH MODX_ADMIN_PATH in
  this_isAuthenticated s = false
  ∧ this_sessionInfo s = no_session
  ∧ this_authToken s = VStr ""
  ∧ this_processorCache s = None
  ∧ startsWith (this_connectorPath s) "/" = true
  ∧ endsWith (this_connectorPath s) "/" = true
  ∧ startsWith (this_adminPath s) "/" = true
  ∧ endsWith (this_adminPath s) "/" = true
  ∧ (default "" MODX_CONNECTOR_PATH = "" → this_connectorPath s = "/connectors/")
  ∧ (default "" MODX_ADMIN_PATH = "" → this_adminPath s = "/manager/")
  ∧ (default "" MODX_BASE_URL = "" → this_baseUrl s = "http://localhost")
  ∧ (default "" MODX_BASE_URL ≠ "" → this_baseUrl s = default "" MODX_BASE_URL).
Proof.
  cbv zeta. unfold constructor.
  cbn [this_isAuthenticated this_sessionInfo this_authToken this_processorCache
       this_connectorPath this_adminPath this_baseUrl].
  assert (Henv : ∀ x d, (default "" x = "" → env_or x d = d)
                        ∧ (default "" x ≠ "" → env_or x d = default "" x)).
  { intros [x|] d; cbn; [|done].
    destruct (String.eqb_spec x ""); split; intros; congruence. }
  repeat (split; [first [done | apply normalizePath_slashes]|]).
  split; [intros E; by rewrite (proj1 (Henv _ _) E)|].
  split; [intros E; by rewrite (proj1 (Henv _ _) E)|].
  split; [apply Henv | apply Henv].
Qed.

(** ** Generated names *)






Lemma normalize_char_fixes (c : ascii) :
  matches_a_z0_9 c = true → Spec.normalize_char c = c.
Proof. destruct c as [[] [] [] [] [] [] [] []]; (reflexivity || discriminate). Qed.

Lemma map_chars_fixes (f : ascii -> ascii) (P : ascii -> bool) (s : string) :
  (∀ c, P c = true → f c = c) → all_chars P s = true → map_chars f s = s.
Proof.
  intros Hf. induction s as [|c s IH]; [done|]. cbn.
  intros [Hc Hs]%andb_true_iff. by rewrite Hf, IH.
Qed.

Lemma processorToToolName_unfold (ns p : string) :
  processorToToolName ns p
  = "modx_" +:+ map_chars Spec.normalize_char ns
    +:+ "_" +:+ map_chars Spec.normalize_char p.
Proof. unfold processorToToolName. by rewrite !clean_is_normalize. Qed.

Lemma processorToToolName_clean (ns p : string) :
  all_chars matches_a_z0_9 ns = true → all_chars matches_a_z0_9 p = true →
  processorToToolName ns p = "modx_" +:+ ns +:+ "_" +:+ p.
Proof.
  intros Hns Hp. rewrite processorToToolName_unfold.
  rewrite (map_chars_fixes _ matches_a_z0_9 ns) by (done || apply normalize_char_fixes).
  by rewrite (map_chars_fixes _ matches_a_z0_9 p) by (done || apply normalize_char_fixes).
Qed.


Lemma split_at_underscore (a b c d : string) :
  all_chars matches_a_z0_9 a = true → all_chars matches_a_z0_9 c = true →
  a +:+ "_" +:+ b = c +:+ "_" +:+ d → a = c ∧ b = d.
Proof.
  revert c. induction a as [|x a IH]; intros [|y c] Ha Hc Heq.
  - by injection Heq.
  - exfalso. injection Heq as <- _. cbn in Hc. discriminate.
  - exfalso. injection Heq as -> _. cbn in Ha. discriminate.
  - change (String x (a +:+ "_" +:+ b) = String y (c +:+ "_" +:+ d)) in Heq.
    injection Heq as -> Heq. cbn in Ha, Hc.
    apply andb_true_iff in Ha as [_ Ha]. apply andb_true_iff in Hc as [_ Hc].
    destruct (IH c Ha Hc Heq) as [-> ->]. done.
Qed.

(** On namespaces and paths written with lower-case letters and digits
    only, the name mapping loses nothing: two such pairs with the same tool
    name are the same pair. *)
Theorem processorToToolName_injective_on_clean (ns1 p1 ns2 p2 : string) :
  all_chars matches_a_z0_9 ns1 = true → all_chars matches_a_z0_9 p1 = true →
  all_chars matches_a_z0_9 ns2 = true → all_chars matches_a_z0_9 p2 = true →
  processorToToolName ns1 p1 = processorToToolName ns2 p2 →
  ns1 = ns2 ∧ p1 = p2.
Proof.
  intros H1 H2 H3 H4 Heq.
  rewrite !processorToToolName_clean in Heq by done.
  apply (inj (String.append "modx_")) in Heq.
  by apply split_at_underscore.
Qed.

Lemma processorToToolName_injective_on_clean_witness :
  "core" = "core" ∧ "getlist" = "getlist".
Proof.
  apply (processorToToolName_injective_on_clean "core" "getlist" "core" "getlist");
    reflexivity.
Defined.

(** ** Schema types *)

Lemma lower_char_idempotent (c : ascii) : lower_char (lower_char c) = lower_char c.
Proof. destruct c as [[] [] [] [] [] [] [] []]; reflexivity. Qed.

Lemma toLowerCase_idempotent (s : string) : toLowerCase (toLowerCase s) = toLowerCase s.
Proof.
  unfold toLowerCase. rewrite map_chars_compose.
  apply map_chars_ext, lower_char_idempotent.
Qed.

Lemma json_type_range (t : string) : Spec.json_type t ∈ json_types.
Proof.
  unfold Spec.json_type, json_types.
  repeat case_decide; repeat ((by left) || right).
Qed.

(** [modxTypeToJsonSchemaType] answers with one of the five JSON Schema
    type names, whatever it is given; it does not depend on the case of
    its argument, and it maps each of the five names to itself. *)
Theorem modxTypeToJsonSchemaType_range (t : string) :
  modxTypeToJsonSchemaType t ∈ json_types
  ∧ modxTypeToJsonSchemaType (toLowerCase t) = modxTypeToJsonSchemaType t
  ∧ (∀ u, u ∈ json_types → modxTypeToJsonSchemaType u = u)
  ∧ modxTypeToJsonSchemaType (modxTypeToJsonSchemaType t) = modxTypeToJsonSchemaType t.
Proof.
  assert (Hfix : ∀ u, u ∈ json_types → modxTypeToJsonSchemaType u = u).
  { intros u Hu. unfold json_types in Hu.
    repeat (apply elem_of_cons in Hu as [->|Hu]; [reflexivity|]).
    by apply elem_of_nil in Hu. }
  assert (Hrange : modxTypeToJsonSchemaType t ∈ json_types)
    by (rewrite modxTypeToJsonSchemaType_spec; apply json_type_range).
  split; [done|]. split; [|split; [done|by apply Hfix]].
  by rewrite !modxTypeToJsonSchemaType_spec, toLowerCase_idempotent.
Qed.

(** ** Reverse lookup and the [tools/call] handler *)

Lemma find_processor_Some (toolName : string) (ps : list ProcessorInfo) (ns a : string) :
  find_processor toolName ps = Some (ns, a) →
  ∃ d, d ∈ ps ∧ namespace d = ns ∧ path d = a ∧ name_of d = toolName.
Proof.
  induction ps as [|p ps IH]; [done|].
  rewrite find_processor_cons.
  destruct (String.eqb_spec (name_of p) toolName) as [Hp|Hp].
  - intros [= <- <-]. exists p. split; [apply elem_of_cons; by left | done].
  - intros (d & Hd & ?)%IH. exists d. split; [apply elem_of_cons; by right | done].
Qed.

Lemma find_processor_None_iff (toolName : string) (ps : list ProcessorInfo) :
  find_processor toolName ps = None ↔ ∀ d, d ∈ ps → name_of d ≠ toolName.
Proof.
  split; [|apply find_processor_None].
  intros Hnone d Hd Hname.
  destruct (find_processor_first toolName ps) as (i & d' & _ & _ & _ & Hfind);
    [by exists d | congruence].
Qed.

(** [toolNameToProcessor] answers with a pair only if a cached descriptor
    has that namespace and path and maps to the name asked for; it answers
    [null] exactly when there is no cache or no cached descriptor maps to
    the name, which is always so for a name that lacks the [modx_]
    prefix. *)
Theorem toolNameToProcessor_sound_complete (cache : option (list ProcessorInfo))
    (toolName : string) :
  (∀ ns a, toolNameToProcessor cache toolName = Some (ns, a) →
     ∃ ps d, cache = Some ps ∧ d ∈ ps ∧ namespace d = ns ∧ path d = a
             ∧ processorToToolName ns a = toolName)
  ∧ (toolNameToProcessor cache toolName = None
     ↔ cache = None ∨ ∃ ps, cache = Some ps ∧ ∀ d, d ∈ ps → name_of d ≠ toolName)
  ∧ (startsWith toolName "modx_" = false → toolNameToProcessor cache toolName = None).
Proof.
  unfold toolNameToProcessor. split; [|split].
  - intros ns a. destruct (startsWith toolName "modx_"); [|done]. cbn.
    destruct cache as [ps|]; [|done].
    intros (d & Hd & <- & <- & Hname)%find_processor_Some. by exists ps, d.
  - destruct (startsWith toolName "modx_") eqn:Hpre; cbn.
    + destruct cache as [ps|].
      * rewrite find_processor_None_iff. split; [intros Hn; right; by exists ps|].
        intros [?|(ps' & [= <-] & Hn)]; done.
      * split; [by left | done].
    + split; [|done]. intros _. destruct cache as [ps|]; [|by left].
      right. exists ps. split; [done|]. intros d _ Hname.
      rewrite <- Hname in Hpre. unfold name_of in Hpre.
      by rewrite tool_name_has_prefix in Hpre.
  - by intros ->.
Qed.

Section CallTool.
Context `{Host}.

Lemma callTool_session_info (args : option (gmap string value)) (s : Server) :
  callTool "modx_get_session_info" args s
  = (Ok {| content := SessionText (this_sessionInfo (this (modxProxy s)));
           isError := false |}, s).
Proof. by destruct s. Qed.

Lemma callTool_unresolved (name : string) (args : option (gmap string value))
    (s : Server) :
  name ≠ "modx_get_session_info" →
  toolNameToProcessor (processorsCache s) name = None →
  callTool name args s = (Ok (unknown_tool name args), s).
Proof.
  intros Hname Hnone. unfold callTool, try_catch, bind, gets, throw, ret.
  destruct (String.eqb_spec name "modx_get_session_info") as [?|_]; [done|].
  cbn -[toolNameToProcessor]. rewrite Hnone. by destruct (startsWith name "modx_").
Qed.

Lemma callTool_resolved (name : string) (args : option (gmap string value))
    (s : Server) (ns a : string) :
  name ≠ "modx_get_session_info" →
  toolNameToProcessor (processorsCache s) name = Some (ns, a) →
  callTool name args s
  = match callProcessor ns a (default ∅ args) (modxProxy s) with
    | (Ok result, c') =>
        (Ok {| content := ResultText result; isError := false |},
         {| modxProxy := c'; processorsCache := processorsCache s |})
    | (Throw e, c') =>
        (Ok (failure e name args),
         {| modxProxy := c'; processorsCache := processorsCache s |})
    end.
Proof.
  intros Hname Hsome.
  assert (Hpre : startsWith name "modx_" = true).
  { destruct (startsWith name "modx_") eqn:E; [done|].
    unfold toolNameToProcessor in Hsome. by rewrite E in Hsome. }
  unfold callTool, try_catch, bind, gets, throw, ret, lift.
  destruct (String.eqb_spec name "modx_get_session_info") as [?|_]; [done|].
  cbn -[toolNameToProcessor callProcessor]. rewrite Hpre, Hsome.
  by destruct (callProcessor ns a (default ∅ args) (modxProxy s)) as [[r|e] c'].
Qed.

End CallTool.

(** The [tools/call] handler never throws: whatever the name, the
    arguments and the state, it returns a result; a result flagged as an
    error is a failure payload that repeats the requested name and the
    arguments, and a result not so flagged is the session information or
    the result of a processor call. *)
Theorem callTool_never_throws `{Host} (name : string)
    (args : option (gmap string value)) (s : Server) :
  ∃ r s', callTool name args s = (Ok r, s')
          ∧ (isError r = true → ∃ msg, content r = FailureText msg name args)
          ∧ (isError r = false →
             (∃ info, content r = SessionText info) ∨ ∃ result, content r = ResultText result).
Proof.
  destruct (decide (name = "modx_get_session_info")) as [->|Hname].
  { rewrite callTool_session_info. do 2 eexists. split; [done|]. cbn.
    split; [done|]. intros _. left. by eexists. }
  destruct (toolNameToProcessor (processorsCache s) name) as [[ns a]|] eqn:Hlook.
  - rewrite (callTool_resolved name args s ns a) by done.
    destruct (callProcessor ns a (default ∅ args) (modxProxy s)) as [[r|e] c'].
    + do 2 eexists. split; [reflexivity|]. cbn. split; [done|].
      intros _. right. by eexists.
    + do 2 eexists. split; [reflexivity|]. cbn. split; [|done].
      intros _. by eexists.
  - rewrite callTool_unresolved by done. do 2 eexists. split; [done|]. cbn.
    split; [eauto | done].
Qed.

(** The fixed session-info tool is served from the local state alone: for
    every state, authenticated or not, and every argument, the answer is
    the current session information and nothing changes, so no request is
    sent.  It is tested first, so a cached processor whose generated name
    is [modx_get_session_info] (namespace "get", path "session/info" is
    one) can never be called through the handler. *)
Theorem session_info_tool_shadows `{Host} (args : option (gmap string value))
    (s : Server) :
  callTool "modx_get_session_info" args s
  = (Ok {| content := SessionText (this_sessionInfo (this (modxProxy s)));
           isError := false |}, s)
  ∧ (∀ d, name_of d = "modx_get_session_info" →
       callTool (name_of d) args s
       = (Ok {| content := SessionText (this_sessionInfo (this (modxProxy s)));
                isError := false |}, s))
  ∧ (∃ d, name_of d = "modx_get_session_info").
Proof.
  split; [apply callTool_session_info|]. split.
  - intros d ->. apply callTool_session_info.
  - by exists (Examples.processor "get" "session/info" []).
Qed.

(** A name other than the fixed tool's that no cached descriptor maps to
    is answered with the failure payload "Unknown tool: <name>", without
    any request and without any change of state.  This is the case of
    every name while the dispatcher cache is still empty, that is before
    the first successful [tools/list], even in an authenticated session. *)
Theorem callTool_unknown_tool `{Host} (name : string)
    (args : option (gmap string value)) (s : Server) :
  name ≠ "modx_get_session_info" →
  (processorsCache s = None
   ∨ startsWith name "modx_" = false
   ∨ ∃ ps, processorsCache s = Some ps ∧ ∀ d, d ∈ ps → name_of d ≠ name) →
  callTool name args s = (Ok (unknown_tool name args), s).
Proof.
  intros Hname Hcase. apply callTool_unresolved; [done|].
  destruct Hcase as [Hnone|[Hpre|(ps & Hps & Hall)]].
  - rewrite Hnone. unfold toolNameToProcessor. by destruct (startsWith name "modx_").
  - unfold toolNameToProcessor. by rewrite Hpre.
  - rewrite Hps. unfold toolNameToProcessor.
    destruct (startsWith name "modx_"); [|done]. cbn. by apply find_processor_None.
Qed.

Lemma callTool_unknown_tool_witness :
  this_isAuthenticated (this (Examples.logged_in [])) = true
  ∧ @callTool Examples.demo_host "modx_core_resource_getlist" None
      {| modxProxy := Examples.logged_in []; processorsCache := None |}
    = (Ok (unknown_tool "modx_core_resource_getlist" None),
       {| modxProxy := Examples.logged_in []; processorsCache := None |}).
Proof.
  split; [vm_compute; reflexivity|].
  apply (@callTool_unknown_tool Examples.demo_host);
    [discriminate | left; reflexivity].
Defined.

Lemma callProcessor_unauthenticated `{Host} (ns a : string) (d : gmap string value)
    (c : Client) :
  this_isAuthenticated (this c) = false →
  callProcessor ns a d c = (Throw not_authenticated, c).
Proof. intros Hoff. unfold callProcessor, bind, gets. by rewrite Hoff. Qed.

Lemma resolve_cached (ps : list ProcessorInfo) (d : ProcessorInfo) :
  d ∈ ps →
  (∀ e, e ∈ ps → name_of e = name_of d →
        (namespace e, path e) = (namespace d, path d)) →
  toolNameToProcessor (Some ps) (name_of d) = Some (namespace d, path d).
Proof.
  intros Hin Huniq.
  destruct (find_processor_first (name_of d) ps) as (i & d' & Hi & Hd & _ & Hfind);
    [by exists d|].
  unfold toolNameToProcessor, name_of at 1. rewrite tool_name_has_prefix. cbn.
  rewrite Hfind. f_equal. apply Huniq; [|done]. by apply list_elem_of_lookup_2 in Hi.
Qed.

(** A call of the generated tool of a cached descriptor, when no other
    cached descriptor shares its name and the name is not the fixed
    tool's, is one [callProcessor] with the namespace and path of the
    descriptor and the arguments given ([{}] when there are none): its
    result is the payload, and its exception becomes the failure payload
    with the exception's message.  In a session that is not authenticated
    the payload is the "not authenticated" failure and nothing is sent. *)
Theorem callTool_forwards `{Host} (args : option (gmap string value)) (s : Server)
    (ps : list ProcessorInfo) (d : ProcessorInfo) :
  name_of d ≠ "modx_get_session_info" →
  processorsCache s = Some ps →
  d ∈ ps →
  (∀ e, e ∈ ps → name_of e = name_of d →
        (namespace e, path e) = (namespace d, path d)) →
  callTool (name_of d) args s
  = match callProcessor (namespace d) (path d) (default ∅ args) (modxProxy s) with
    | (Ok result, c') =>
        (Ok {| content := ResultText result; isError := false |},
         {| modxProxy := c'; processorsCache := Some ps |})
    | (Throw e, c') =>
        (Ok (failure e (name_of d) args),
         {| modxProxy := c'; processorsCache := Some ps |})
    end
  ∧ (this_isAuthenticated (this (modxProxy s)) = false →
     callTool (name_of d) args s = (Ok (failure not_authenticated (name_of d) args), s)).
Proof.
  intros Hname Hps Hin Huniq.
  assert (Hcall := callTool_resolved (name_of d) args s (namespace d) (path d) Hname).
  rewrite Hps in Hcall. specialize (Hcall (resolve_cached ps d Hin Huniq)).
  split; [exact Hcall|].
  intros Hoff. rewrite Hcall, callProcessor_unauthenticated by done.
  destruct s as [c cache]. cbn in Hps. by rewrite Hps.
Qed.

Lemma callTool_forwards_witness :
  let s := {| modxProxy := Examples.after_logout;
              processorsCache := Some [Examples.getlist_plain] |} in
  @callTool Examples.demo_host "modx_core_resource_getlist" None s
  = (Ok (failure not_authenticated "modx_core_resource_getlist" None), s).
Proof.
  cbn zeta.
  apply (@callTool_forwards Examples.demo_host None
           {| modxProxy := Examples.after_logout;
              processorsCache := Some [Examples.getlist_plain] |}
           [Examples.getlist_plain] Examples.getlist_plain).
  - discriminate.
  - reflexivity.
  - apply elem_of_cons. by left.
  - intros e He _. apply elem_of_cons in He as [->|He]; [reflexivity|].
    by apply elem_of_nil in He.
  - vm_compute. reflexivity.
Defined.

Lemma createProcessorTool_name (p : ProcessorInfo) :
  tool_name (createProcessorTool p) = name_of p.
Proof.
  unfold createProcessorTool.
  destruct (parameters p) as [params|]; [|reflexivity].
  by destruct (fold_left add_param params (∅, [])).
Qed.

(** Every tool that a [tools/list] answer names can be called: it is the
    fixed tool, or its name resolves, in the dispatcher cache as the
    listing left it, to a namespace and a path that map back to that
    name.  The names listed are the fixed name followed by the names of
    the cached descriptors in order. *)
Theorem listed_tools_resolve `{Host} (s s' : Server) (tools : list Tool) :
  listTools s = (Ok tools, s') →
  (tools = [session_info_tool]
   ∨ ∃ ps, processorsCache s' = Some ps
           ∧ tool_name <$> tools = "modx_get_session_info" :: (name_of <$> ps))
  ∧ (∀ t, t ∈ tools →
       tool_name t = "modx_get_session_info"
       ∨ ∃ ns a, toolNameToProcessor (processorsCache s') (tool_name t) = Some (ns, a)
                 ∧ processorToToolName ns a = tool_name t).
Proof.
  intros Hlist.
  assert (Hshape : tools = [session_info_tool]
                   ∨ ∃ ps, processorsCache s' = Some ps
                           ∧ tools = session_info_tool :: map createProcessorTool ps).
  { unfold listTools in Hlist. rewrite getAllTools_cases in Hlist.
    destruct (negb _); [injection Hlist as <- <-; by left|].
    destruct (processorsCache s) as [ps|] eqn:Hps.
    - injection Hlist as <- <-. right. by exists ps.
    - destruct (getProcessors false (modxProxy s)) as [[found|e] c'];
        injection Hlist as <- <-; [right; by eexists | by left]. }
  assert (Hnames : ∀ ps, tool_name <$> map createProcessorTool ps = name_of <$> ps).
  { intros ps. induction ps as [|p ps IH]; [done|].
    cbn [map fmap list_fmap]. by rewrite createProcessorTool_name, <- IH. }
  split.
  - destruct Hshape as [->|(ps & Hps & ->)]; [by left|].
    right. exists ps. split; [done|]. cbn. f_equal. apply Hnames.
  - intros t Ht. destruct Hshape as [->|(ps & Hps & ->)].
    + left. apply elem_of_cons in Ht as [->|Ht]; [done | by apply elem_of_nil in Ht].
    + apply elem_of_cons in Ht as [->|Ht]; [by left|]. right.
      assert (Hn : tool_name t ∈ tool_name <$> map createProcessorTool ps)
        by (by apply list_elem_of_fmap_2).
      rewrite Hnames in Hn. apply list_elem_of_fmap in Hn as (d & Hd & Hin).
      destruct (find_processor_first (tool_name t) ps)
        as (i & d' & Hi & Hd' & _ & Hfind); [by exists d|].
      exists (namespace d'), (path d'). rewrite Hps. split; [|exact Hd'].
      unfold toolNameToProcessor. rewrite Hd at 1. unfold name_of.
      rewrite tool_name_has_prefix. cbn. exact Hfind.
Qed.

Lemma listed_tools_resolve_witness :
  ∃ tools, @listTools Examples.demo_host Examples.discovered
           = (Ok tools, Examples.discovered)
           ∧ tool_name <$> tools
             = ["modx_get_session_info"; "modx_core_resource_getlist";
                "modx_core_resource_get"].
Proof.
  exists (session_info_tool :: map createProcessorTool Examples.first_snapshot).
  assert (Hrun : @listTools Examples.demo_host Examples.discovered
                 = (Ok (session_info_tool :: map createProcessorTool Examples.first_snapshot),
                    Examples.discovered)) by (vm_compute; reflexivity).
  split; [exact Hrun|].
  destruct (@listed_tools_resolve Examples.demo_host _ _ _ Hrun) as [[Hone|(ps & _ & Hn)] _].
  - discriminate Hone.
  - reflexivity.
Defined.

(** ** The requests of the session client *)

Lemma on_call_error_eq {A} (what : string) (e : exn) (c : Client) :
  @on_call_error A what e c
  = (Throw (surfaced what e), if is_401_or_403 e then invalidate c else c).
Proof.
  unfold on_call_error, surfaced.
  destruct e as [st msg|msg|v]; [|done..].
  by destruct (is_401_or_403 (AxiosError st msg)).
Qed.

Lemma processor_result_state (result : value) (c : Client) :
  (processor_result result c).2 = c.
Proof.
  unfold processor_result, bind, of_res, ret.
  by repeat (match goal with
             | |- context [get_prop result ?k] => destruct (get_prop result k)
             end; cbn).
Qed.

Lemma post_eq (u : string) (body : gmap string value) (ref : string) (c : Client) :
  post u body ref c
  = (next_outcome c,
     after_post c {| url := u; form := body; referer := ref;
                     cookies := this_cookieJar (this c) |}).
Proof.
  unfold post, next_outcome, after_post. cbv zeta.
  by destruct (script (world c)) as [|[r|e] rest].
Qed.

Lemma after_post_facts (c : Client) (req : Request) :
  requests (after_post c req) = (requests c ++ [req])%list
  ∧ this_isAuthenticated (this (after_post c req)) = this_isAuthenticated (this c)
  ∧ this_sessionInfo (this (after_post c req)) = this_sessionInfo (this c)
  ∧ this_authToken (this (after_post c req)) = this_authToken (this c)
  ∧ this_processorCache (this (after_post c req)) = this_processorCache (this c)
  ∧ this_baseUrl (this (after_post c req)) = this_baseUrl (this c).
Proof.
  unfold after_post, requests. cbv zeta.
  by destruct (script (world c)) as [|[r|e] rest].
Qed.

Section Requests.
Context `{Host}.

Lemma get_prop_throws (v : value) (k : string) (e : exn) :
  get_prop v k = Throw e → is_401_or_403 e = false.
Proof. destruct v; cbn; intros [= <-]; done. Qed.

Lemma processor_result_throws (result : value) (c c' : Client) (e : exn) :
  processor_result result c = (Throw e, c') → is_401_or_403 e = false.
Proof.
  unfold processor_result, bind, of_res, ret.
  repeat (match goal with
          | |- context [get_prop result ?k] =>
              let E := fresh "E" in
              destruct (get_prop result k) eqn:E;
              [|apply get_prop_throws in E; intros [= <- _]; exact E]
          end; cbn).
  done.
Qed.

Lemma parse_response_body (response : Response) :
  parse_response (data response)
    (Ok (VObj [("success", VBool true); ("data", data response); ("raw", VBool true)]))
  = Ok (body_of response).
Proof.
  unfold body_of, parse_response.
  destruct (data response) as [| | | |s| |]; try done. by destruct (JSON_parse s).
Qed.

Lemma callProcessor_run (ns a : string) (d : gmap string value) (c : Client) :
  this_isAuthenticated (this c) = true →
  callProcessor ns a d c
  = let c1 := after_post (touched c) (call_request (this c) a d) in
    match next_outcome c with
    | Ok response =>
        match (processor_result (body_of response) c1).1 with
        | Ok r => (Ok r, c1)
        | Throw e => (Throw (surfaced "Processor call failed" e), c1)
        end
    | Throw e =>
        (Throw (surfaced "Processor call failed" e),
         if is_401_or_403 e then invalidate c1 else c1)
    end.
Proof.
  intros Hauth.
  unfold callProcessor, bind, gets, try_catch, of_res.
  rewrite Hauth. cbn -[post parse_response processor_result on_call_error].
  rewrite post_eq. cbv zeta.
  set (c1 := after_post (touched c) (call_request (this c) a d)).
  change (after_post _ _) with c1.
  change (next_outcome _) with (next_outcome c).
  destruct (next_outcome c) as [response|e];
    cbn -[parse_response processor_result on_call_error after_post c1];
    [|by rewrite on_call_error_eq].
  rewrite parse_response_body.
  cbn -[parse_response processor_result on_call_error after_post c1].
  pose proof (processor_result_state (body_of response) c1) as Hst.
  destruct (processor_result (body_of response) c1) as [[r|e] c2] eqn:Hres;
    cbn in Hst; subst c2; [done|].
  rewrite on_call_error_eq. cbn [fst].
  by rewrite (processor_result_throws _ _ _ _ Hres).
Qed.

Lemma get_prop_opt_Ok (v : value) (k : string) (x : value) :
  get_prop v k = Ok x → get_prop_opt v k = x.
Proof. unfold get_prop_opt. by intros ->. Qed.

Lemma getProcessors_run (refresh : bool) (c : Client) :
  this_isAuthenticated (this c) = true →
  refresh = true ∨ this_processorCache (this c) = None →
  getProcessors refresh c
  = let c1 := after_post (touched c) (discovery_request (this c)) in
    let fail e := (Throw (surfaced "Failed to get processors" e), c1) in
    match next_outcome c with
    | Ok response =>
        match parse_response (data response)
                (Throw (Error "Invalid JSON response from MODX component")) with
        | Ok result =>
            match get_prop result "success" with
            | Ok success =>
                if truthy success && truthy (get_prop_opt result "object")
                then (Ok (list_of (get_prop_opt result "object")),
                      cached (list_of (get_prop_opt result "object")) c1)
                else fail (Error (to_String
                       (or_else (get_prop_opt result "message")
                          (VStr "Failed to get processors from MODX component"))))
            | Throw e => fail e
            end
        | Throw e => fail (Error "Invalid JSON response from MODX component")
        end
    | Throw e =>
        (Throw (surfaced "Failed to get processors" e),
         if is_401_or_403 e then invalidate c1 else c1)
    end.
Proof.
  intros Hauth Hfetch.
  unfold getProcessors, bind, gets, try_catch, of_res.
  assert (Hmatch : ∀ (A : Type) (x : ProcessorList → A) (y : A),
            match this_processorCache (this c), refresh with
            | Some cache, false => x cache
            | _, _ => y
            end = y).
  { intros A x y. destruct Hfetch as [-> | ->]; [by destruct (this_processorCache _)|done]. }
  cbn beta. rewrite (Hmatch _ (λ cache, ret cache)). rewrite Hauth.
  cbn -[post parse_response get_prop on_call_error truthy].
  rewrite post_eq. cbv zeta.
  set (c1 := after_post (touched c) (discovery_request (this c))).
  change (after_post _ _) with c1.
  change (next_outcome _) with (next_outcome c).
  destruct (next_outcome c) as [response|e];
    cbn -[parse_response get_prop on_call_error after_post c1 truthy];
    [|by rewrite on_call_error_eq].
  destruct (parse_response _ _) as [result|e] eqn:Hparse;
    cbn -[parse_response get_prop on_call_error after_post c1 truthy].
  2:{ rewrite on_call_error_eq.
      assert (e = Error "Invalid JSON response from MODX component") as ->; [|done].
      unfold parse_response in Hparse.
      destruct (data response) as [| | | |s| |]; try done.
      destruct (JSON_parse s); congruence. }
  destruct (get_prop result "success") as [success|e] eqn:Hs;
    cbn -[parse_response get_prop on_call_error after_post c1 truthy];
    [|by rewrite on_call_error_eq, (get_prop_throws _ _ _ Hs)].
  destruct (get_prop_total result "success" "object" success Hs) as [object Ho].
  destruct (get_prop_total result "success" "message" success Hs) as [message Hm].
  rewrite Ho, (get_prop_opt_Ok _ _ _ Ho), (get_prop_opt_Ok _ _ _ Hm).
  cbn -[parse_response get_prop on_call_error after_post c1 truthy].
  destruct (truthy success && truthy object) eqn:Hboth;
    cbn -[parse_response get_prop on_call_error after_post c1 truthy].
  - apply andb_true_iff in Hboth as [_ Hobj].
    assert (Hnn : ∀ k, get_prop object k = Ok (get_prop_opt object k)).
    { intros k. unfold get_prop_opt. destruct object; try done. }
    rewrite !Hnn. reflexivity.
  - rewrite Hm. cbn -[on_call_error c1 truthy]. by rewrite on_call_error_eq.
Qed.

End Requests.


Lemma callProcessor_state `{Host} (ns a : string) (d : gmap string value) (c : Client) :
  this_isAuthenticated (this c) = true →
  (callProcessor ns a d c).2 = after_post (touched c) (call_request (this c) a d)
  ∨ (callProcessor ns a d c).2
    = invalidate (after_post (touched c) (call_request (this c) a d)).
Proof.
  intros Hauth. rewrite callProcessor_run by done. cbv zeta.
  destruct (next_outcome c) as [response|e].
  - left. by destruct (processor_result _ _).1.
  - destruct (is_401_or_403 e); [by right | by left].
Qed.



(** An HTTP failure other than 401 and 403, a network failure included,
    makes [callProcessor] and a [getProcessors] that goes to the remote
    system fail with "HTTP error <status>: <message>" (the status reads
    "undefined" when there was no response); the session stays
    authenticated, and the client's cache is what it was. *)
Theorem http_error_keeps_session `{Host} (c : Client) (st : option Z) (msg : string) :
  this_isAuthenticated (this c) = true →
  next_outcome c = Throw (AxiosError st msg) →
  is_401_or_403 (AxiosError st msg) = false →
  let err := Error ("HTTP error " +:+ from_option pretty "undefined" st +:+ ": " +:+ msg) in
  let kept (c' : Client) :=
    this_isAuthenticated (this c') = true
    ∧ isAuthenticated (this_sessionInfo (this c'))
      = isAuthenticated (this_sessionInfo (this c))
    ∧ this_authToken (this c') = this_authToken (this c)
    ∧ this_processorCache (this c') = this_processorCache (this c) in
  (∀ ns a d, (callProcessor ns a d c).1 = Throw err ∧ kept (callProcessor ns a d c).2)
  ∧ (∀ refresh, refresh = true ∨ this_processorCache (this c) = None →
       (getProcessors refresh c).1 = Throw err ∧ kept (getProcessors refresh c).2).
Proof.
  intros Hauth Hnext Hnot. cbv zeta. split.
  - intros ns a d. rewrite callProcessor_run, Hnext by done. cbv zeta.
    rewrite Hnot. unfold surfaced. rewrite Hnot. cbn [fst snd]. split; [done|].
    destruct (after_post_facts (touched c) (call_request (this c) a d))
      as (_ & -> & -> & -> & -> & _). done.
  - intros refresh Hfetch. rewrite getProcessors_run, Hnext by done. cbv zeta.
    rewrite Hnot. unfold surfaced. rewrite Hnot. cbn [fst snd]. split; [done|].
    destruct (after_post_facts (touched c) (discovery_request (this c)))
      as (_ & -> & -> & -> & -> & _). done.
Qed.

Lemma http_error_keeps_session_witness :
  (@callProcessor Examples.demo_host "core" "resource/getlist" ∅ (Examples.logged_in [])).1
  = Throw (Error "HTTP error undefined: Network Error").
Proof.
  destruct (@http_error_keeps_session Examples.demo_host (Examples.logged_in [])
              None "Network Error") as [Hcall _];
    [vm_compute; reflexivity | vm_compute; reflexivity | reflexivity |].
  apply Hcall.
Defined.

Lemma getProcessors_unauthenticated `{Host} (c : Client) :
  this_isAuthenticated (this c) = false →
  getProcessors true c = (Throw not_authenticated, c).
Proof.
  intros Hoff. unfold getProcessors, bind, gets. rewrite Hoff.
  by destruct (this_processorCache (this c)).
Qed.

(** After a 401 or 403 on [callProcessor], no further call reaches the
    remote system: the next [callProcessor] and the next forced
    [getProcessors] fail with "not authenticated", change nothing, and the
    only request on record is the one that was refused. *)
Theorem after_unauthorized_nothing_is_sent `{Host} (c : Client) (ns a : string)
    (d : gmap string value) (e : exn) :
  this_isAuthenticated (this c) = true →
  next_outcome c = Throw e →
  is_401_or_403 e = true →
  let c' := (callProcessor ns a d c).2 in
  requests c' = (requests c ++ [call_request (this c) a d])%list
  ∧ (∀ ns' a' d', callProcessor ns' a' d' c' = (Throw not_authenticated, c'))
  ∧ getProcessors true c' = (Throw not_authenticated, c').
Proof.
  intros Hauth Hnext H401. cbv zeta.
  assert (Hstate : (callProcessor ns a d c).2
                   = invalidate (after_post (touched c) (call_request (this c) a d))).
  { rewrite callProcessor_run, Hnext by done. cbv zeta. by rewrite H401. }
  rewrite Hstate.
  split; [|split].
  - apply (after_post_facts (touched c) (call_request (this c) a d)).
  - intros ns' a' d'. by apply callProcessor_unauthenticated.
  - by apply getProcessors_unauthenticated.
Qed.

Lemma after_unauthorized_nothing_is_sent_witness :
  let c := Examples.logged_in [Examples.unauthorized; Examples.respond Examples.null_data] in
  let c' := (@callProcessor Examples.demo_host "core" "resource/getlist" ∅ c).2 in
  @callProcessor Examples.demo_host "core" "resource/get" ∅ c'
  = (Throw not_authenticated, c').
Proof.
  cbn zeta.
  destruct (@after_unauthorized_nothing_is_sent Examples.demo_host
              (Examples.logged_in [Examples.unauthorized;
                                   Examples.respond Examples.null_data])
              "core" "resource/getlist" ∅
              (AxiosError (Some 401%Z) "Request failed with status code 401"))
    as (_ & Hnext & _);
    [vm_compute; reflexivity | vm_compute; reflexivity | reflexivity |].
  apply Hnext.
Defined.

(** ** The client's cache of processors *)

Lemma getProcessors_hit `{Host} (c : Client) (found : ProcessorList) :
  this_processorCache (this c) = Some found →
  getProcessors false c = (Ok found, c).
Proof. intros Hc. unfold getProcessors, bind, gets. by rewrite Hc. Qed.

Lemma getProcessors_cases `{Host} (refresh : bool) (c : Client) :
  (∃ found, refresh = false ∧ this_processorCache (this c) = Some found
            ∧ getProcessors refresh c = (Ok found, c))
  ∨ (this_isAuthenticated (this c) = false
     ∧ getProcessors refresh c = (Throw not_authenticated, c))
  ∨ (this_isAuthenticated (this c) = true
     ∧ (refresh = true ∨ this_processorCache (this c) = None)).
Proof.
  destruct (this_processorCache (this c)) as [found|] eqn:Hc.
  - destruct refresh.
    + destruct (this_isAuthenticated (this c)) eqn:Ha; [right; right; auto|].
      right; left. split; [done|]. by apply getProcessors_unauthenticated.
    + left. exists found. split; [done|]. split; [done|]. by apply getProcessors_hit.
  - destruct (this_isAuthenticated (this c)) eqn:Ha; [right; right; auto|].
    right; left. split; [done|].
    unfold getProcessors, bind, gets. rewrite Hc, Ha. by destruct refresh.
Qed.

(** The client's cache is replaced as a whole or not at all.  When
    [getProcessors] returns a list, that list is the cache afterwards, and
    an immediate second call without refresh returns the same list without
    sending anything or changing anything; when [getProcessors] throws,
    the cache is what it was before the call. *)
Theorem getProcessors_cache `{Host} (refresh : bool) (c : Client) :
  (∀ found c', getProcessors refresh c = (Ok found, c') →
     this_processorCache (this c') = Some found
     ∧ getProcessors false c' = (Ok found, c'))
  ∧ (∀ e c', getProcessors refresh c = (Throw e, c') →
       this_processorCache (this c') = this_processorCache (this c)).
Proof.
  assert (Hok : ∀ found c', getProcessors refresh c = (Ok found, c') →
                            this_processorCache (this c') = Some found).
  { intros found c'.
    destruct (getProcessors_cases refresh c)
      as [(f & -> & Hc & ->)|[(Ha & ->)|(Ha & Hfetch)]]; [congruence|done|].
    rewrite getProcessors_run by done. cbv zeta.
    repeat (match goal with
            | |- context [match ?x with _ => _ end] => destruct x
            end; try done).
    by intros [= <- <-]. }
  split.
  - intros found c' Hrun. split; [by apply Hok|].
    apply getProcessors_hit. by apply Hok.
  - intros e c'.
    destruct (getProcessors_cases refresh c)
      as [(f & -> & Hc & ->)|[(Ha & ->)|(Ha & Hfetch)]]; [done|congruence|].
    rewrite getProcessors_run by done. cbv zeta.
    destruct (after_post_facts (touched c) (discovery_request (this c)))
      as (_ & _ & _ & _ & Hcache & _).
    repeat (match goal with
            | |- context [match ?x with _ => _ end] => destruct x
            end; try done);
      intros [= <- <-]; done.
Qed.

Lemma getProcessors_cache_witness :
  let c := Examples.logged_in [Examples.respond Examples.two_processors] in
  match @getProcessors Examples.demo_host false c with
  | (Ok found, c') => @getProcessors Examples.demo_host false c' = (Ok found, c')
  | (Throw _, _) => False
  end.
Proof.
  cbn zeta.
  pose proof (proj1 (@getProcessors_cache Examples.demo_host false
    (Examples.logged_in [Examples.respond Examples.two_processors]))) as Hcache.
  destruct (@getProcessors Examples.demo_host false
              (Examples.logged_in [Examples.respond Examples.two_processors]))
    as [[found|e] c'] eqn:Hrun.
  - exact (proj2 (Hcache found c' eq_refl)).
  - vm_compute in Hrun. discriminate Hrun.
Defined.

(** A discovery that the remote system answers with a truthy [success] and
    a truthy [object] sends one request (to base URL + the component's
    connector, carrying the token) and returns the list built from the
    object, with [[]], [0] and "unknown" standing in for a missing or
    falsy [processors], [total] and [generated_at]. *)
Theorem getProcessors_fetch `{Host} (refresh : bool) (c : Client)
    (response : Response) (result success : value) :
  this_isAuthenticated (this c) = true →
  refresh = true ∨ this_processorCache (this c) = None →
  next_outcome c = Ok response →
  decoded (data response) result →
  get_prop result "success" = Ok success →
  truthy success = true →
  truthy (get_prop_opt result "object") = true →
  let object := get_prop_opt result "object" in
  ∃ c', getProcessors refresh c = (Ok (list_of object), c')
        ∧ requests c' = (requests c ++ [discovery_request (this c)])%list
        ∧ form (discovery_request (this c)) !! "HTTP_MODAUTH"
          = Some (this_authToken (this c))
        ∧ (truthy (get_prop_opt object "processors") = false →
           processors (list_of object) = [])
        ∧ (truthy (get_prop_opt object "total") = false →
           total (list_of object) = VNum 0)
        ∧ (truthy (get_prop_opt object "generated_at") = false →
           generated_at (list_of object) = VStr "unknown").
Proof.
  intros Hauth Hfetch Hnext Hdec Hs Htrue Hobj. cbv zeta.
  eexists. split.
  { rewrite getProcessors_run, Hnext by done. cbv zeta.
    rewrite (decoded_parse _ _ _ Hdec), Hs, Htrue, Hobj. reflexivity. }
  split; [apply (after_post_facts (touched c) (discovery_request (this c)))|].
  split; [done|].
  unfold list_of, or_else. cbn [processors total generated_at].
  repeat split; by intros ->.
Qed.

Lemma getProcessors_fetch_witness :
  ∃ c', @getProcessors Examples.demo_host false
          (Examples.logged_in [Examples.respond (VObj [("success", VBool true);
                                                       ("object", VObj [])])])
        = (Ok {| processors := []; total := VNum 0; generated_at := VStr "unknown" |}, c').
Proof.
  destruct (@getProcessors_fetch Examples.demo_host false
              (Examples.logged_in [Examples.respond (VObj [("success", VBool true);
                                                           ("object", VObj [])])])
              {| data := VObj [("success", VBool true); ("object", VObj [])];
                 setCookie := [] |}
              (VObj [("success", VBool true); ("object", VObj [])]) (VBool true))
    as (c' & Hrun & _);
    [vm_compute; reflexivity | right; vm_compute; reflexivity
    | vm_compute; reflexivity | reflexivity | vm_compute; reflexivity
    | reflexivity | vm_compute; reflexivity |].
  exists c'. exact Hrun.
Defined.



(** ** Login *)

Lemma login_run `{Host} (username password : string) (baseUrl_arg : option string)
    (c : Client) :
  login username password baseUrl_arg c
  = let c0 := rebased baseUrl_arg c in
    let c1 := after_post c0 (login_request (this c0) username password) in
    let fail e := (Ok (auth_error e), signed_out c1) in
    match next_outcome c with
    | Ok response =>
        match parse_response (data response)
                (Throw (Error "Invalid JSON response from MODX")) with
        | Ok result =>
            match get_prop result "success" with
            | Ok success =>
                if truthy success
                then (Ok (welcome c0 c1 result), signed_in c0 c1 result)
                else (Ok (refusal result), signed_out c1)
            | Throw e => fail e
            end
        | Throw e => fail (Error "Invalid JSON response from MODX")
        end
    | Throw e => fail e
    end.
Proof.
  assert (Hnext : next_outcome (rebased baseUrl_arg c) = next_outcome c)
    by (unfold rebased; by destruct (truthy _)).
  rewrite <- Hnext.
  unfold login, try_catch, bind, gets, when, of_res.
  assert (Hpre : (if truthy (from_option VStr VUndefined baseUrl_arg)
                  then update (set_baseUrl (strip_trailing_slash (default "" baseUrl_arg)))
                  else ret tt) c = (Ok tt, rebased baseUrl_arg c)).
  { unfold rebased. by destruct (truthy _). }
  rewrite Hpre. cbv zeta. unfold ret, update, modify, Date_now, gets.
  set (c0 := rebased baseUrl_arg c).
  cbn -[post parse_response get_prop truthy c0].
  rewrite post_eq.
  set (c1 := after_post c0 (login_request (this c0) username password)).
  change (after_post _ _) with c1.
  destruct (next_outcome c0) as [response|e];
    cbn -[parse_response get_prop truthy c0 c1]; [|done].
  destruct (parse_response _ _) as [result|e] eqn:Hparse;
    cbn -[parse_response get_prop truthy c0 c1].
  2:{ assert (e = Error "Invalid JSON response from MODX") as ->; [|done].
      unfold parse_response in Hparse.
      destruct (data response) as [| | | |s| |]; try done.
      destruct (JSON_parse s); congruence. }
  destruct (get_prop result "success") as [success|e] eqn:Hs;
    cbn -[parse_response get_prop truthy c0 c1]; [|done].
  destruct (get_prop_total result "success" "object" success Hs) as [object Ho].
  destruct (get_prop_total result "success" "data" success Hs) as [data_ Hd].
  destruct (get_prop_total result "success" "message" success Hs) as [message Hm].
  unfold welcome, refusal, signed_in, session_of.
  rewrite (get_prop_opt_Ok _ _ _ Ho), (get_prop_opt_Ok _ _ _ Hd), (get_prop_opt_Ok _ _ _ Hm).
  assert (Hb : this_baseUrl (this c1) = this_baseUrl (this c0))
    by apply after_post_facts.
  destruct (truthy success); cbn -[get_prop truthy c0 c1 or_else].
  - rewrite Ho. cbn -[get_prop truthy c0 c1 or_else]. rewrite Hd.
    cbn -[get_prop truthy c0 c1 or_else]. rewrite Hb. reflexivity.
  - rewrite Hm. reflexivity.
Qed.

Lemma rebased_facts (baseUrl_arg : option string) (c : Client) :
  this_baseUrl (this (rebased baseUrl_arg c)) = new_baseUrl baseUrl_arg (this c)
  ∧ requests (rebased baseUrl_arg c) = requests c
  ∧ this_processorCache (this (rebased baseUrl_arg c)) = this_processorCache (this c)
  ∧ this_authToken (this (rebased baseUrl_arg c)) = this_authToken (this c)
  ∧ this_sessionInfo (this (rebased baseUrl_arg c)) = this_sessionInfo (this c)
  ∧ this_connectorPath (this (rebased baseUrl_arg c)) = this_connectorPath (this c).
Proof.
  unfold rebased, new_baseUrl. destruct baseUrl_arg as [b|]; [|done]. cbn.
  by destruct (String.eqb b "").
Qed.

(** [login] never throws and always sends exactly one request, the POST of
    the credentials to base URL + connector path.  A non-empty [baseUrl]
    argument replaces the base URL, without its trailing slash, before the
    request is built, and stays in place also when the login fails.  The
    [success] of the result is the authenticated flag of the service
    afterwards, and the client's cache of processors is not touched. *)
Theorem login_always_returns `{Host} (username password : string)
    (baseUrl_arg : option string) (c : Client) :
  ∃ r c', login username password baseUrl_arg c = (Ok r, c')
          ∧ requests c'
            = (requests c
               ++ [login_request (this (rebased baseUrl_arg c)) username password])%list
          ∧ url (login_request (this (rebased baseUrl_arg c)) username password)
            = new_baseUrl baseUrl_arg (this c) +:+ this_connectorPath (this c)
          ∧ this_baseUrl (this c') = new_baseUrl baseUrl_arg (this c)
          ∧ this_processorCache (this c') = this_processorCache (this c)
          ∧ login_success r = this_isAuthenticated (this c').
Proof.
  destruct (rebased_facts baseUrl_arg c) as (Hb0 & Hr0 & Hc0 & _ & _ & Hp0).
  destruct (after_post_facts (rebased baseUrl_arg c)
              (login_request (this (rebased baseUrl_arg c)) username password))
    as (Hr1 & _ & _ & _ & Hc1 & Hb1).
  rewrite Hr0 in Hr1. rewrite Hc0 in Hc1. rewrite Hb0 in Hb1.
  assert (Hurl : url (login_request (this (rebased baseUrl_arg c)) username password)
                 = new_baseUrl baseUrl_arg (this c) +:+ this_connectorPath (this c))
    by (cbn [url login_request]; by rewrite Hb0, Hp0).
  rewrite login_run. cbv zeta.
  destruct (next_outcome c) as [response|e]; [|by do 2 eexists].
  destruct (parse_response _ _) as [result|e]; [|by do 2 eexists].
  destruct (get_prop result "success") as [success|e]; [|by do 2 eexists].
  destruct (truthy success); by do 2 eexists.
Qed.



(** A login that fails reports why and leaves the session as it was,
    apart from switching the service's own flag off: a transport error is
    reported as "Authentication error: <message>", a body that is no JSON
    as "Authentication error: Invalid JSON response from MODX", a refusal
    with the remote [message] or else "Authentication failed".  In each
    case token and session information are untouched, so the session
    information of an earlier successful login, its authenticated flag
    included, is still what [getSessionInfo] returns. *)
Theorem login_failure `{Host} (username password : string)
    (baseUrl_arg : option string) (c : Client) :
  let out := login username password baseUrl_arg c in
  let untouched :=
    this_isAuthenticated (this out.2) = false
    ∧ this_authToken (this out.2) = this_authToken (this c)
    ∧ this_sessionInfo (this out.2) = this_sessionInfo (this c)
    ∧ getSessionInfo out.2 = (Ok (this_sessionInfo (this c)), out.2) in
  (∀ e, next_outcome c = Throw e → out.1 = Ok (auth_error e) ∧ untouched)
  ∧ (∀ response body, next_outcome c = Ok response →
       data response = VStr body → JSON_parse body = None →
       out.1 = Ok (auth_error (Error "Invalid JSON response from MODX")) ∧ untouched)
  ∧ (∀ response result success, next_outcome c = Ok response →
       decoded (data response) result →
       get_prop result "success" = Ok success → truthy success = false →
       out.1 = Ok (refusal result) ∧ untouched).
Proof.
  cbv zeta.
  destruct (rebased_facts baseUrl_arg c) as (_ & _ & _ & Ht0 & Hi0 & _).
  destruct (after_post_facts (rebased baseUrl_arg c)
              (login_request (this (rebased baseUrl_arg c)) username password))
    as (_ & _ & Hi1 & Ht1 & _ & _).
  rewrite Ht0 in Ht1. rewrite Hi0 in Hi1.
  assert (Hout : ∀ c1, this_authToken (this c1) = this_authToken (this c) →
                       this_sessionInfo (this c1) = this_sessionInfo (this c) →
                       this_isAuthenticated (this (signed_out c1)) = false
                       ∧ this_authToken (this (signed_out c1)) = this_authToken (this c)
                       ∧ this_sessionInfo (this (signed_out c1)) = this_sessionInfo (this c)
                       ∧ getSessionInfo (signed_out c1)
                         = (Ok (this_sessionInfo (this c)), signed_out c1)).
  { intros c1 Ht Hi. unfold getSessionInfo, gets. cbn. by rewrite Ht, Hi. }
  split; [|split].
  - intros e Hnext. rewrite login_run, Hnext. cbv zeta. cbn [fst snd].
    split; [done | by apply Hout].
  - intros response body Hnext Hbody Hparse. rewrite login_run, Hnext. cbv zeta.
    unfold parse_response. rewrite Hbody, Hparse. cbn [fst snd].
    split; [done | by apply Hout].
  - intros response result success Hnext Hdec Hs Hfalse.
    rewrite login_run, Hnext. cbv zeta.
    rewrite (decoded_parse _ _ _ Hdec), Hs, Hfalse. cbn [fst snd].
    split; [done | by apply Hout].
Qed.

Lemma login_failure_witness :
  let c := modxProxy (Examples.fresh []) in
  let out := @login Examples.demo_host "admin" "adminadmin" None c in
  out.1 = Ok (auth_error (AxiosError None "Network Error"))
  ∧ this_isAuthenticated (this out.2) = false
  ∧ this_authToken (this out.2) = this_authToken (this c).
Proof.
  cbn zeta.
  destruct (proj1 (@login_failure Examples.demo_host "admin" "adminadmin" None
                     (modxProxy (Examples.fresh [])))
              (AxiosError None "Network Error"))
    as (Hout & Hoff & Htoken & _); [vm_compute; reflexivity|].
  exact (conj Hout (conj Hoff Htoken)).
Defined.

(** ** Logout *)

Lemma clear_session_eq (c : Client) : clear_session c = (Ok tt, cleared c).
Proof. reflexivity. Qed.

Lemma logout_run `{Host} (c : Client) :
  let c1 := if this_isAuthenticated (this c)
            then (callProcessor "core" "security/logout" ∅ c).2 else c in
  let remote_ok := if this_isAuthenticated (this c)
                   then match (callProcessor "core" "security/logout" ∅ c).1 with
                        | Ok _ => true
                        | Throw _ => false
                        end
                   else true in
  logout c
  = if remote_ok && negb (jarFails (world c1))
    then (Ok logged_out, without_cookies (cleared c1))
    else (Ok logged_out_locally, cleared c1).
Proof.
  cbv zeta. unfold logout, try_catch, bind, gets, ret, removeAllCookies.
  change clear_session with (λ c : Client, (Ok tt, cleared c)).
  destruct (this_isAuthenticated (this c)).
  - destruct (callProcessor "core" "security/logout" ∅ c) as [[r|e] c1];
      cbn -[cleared]; [|done].
    change (world (cleared c1)) with (world c1).
    destruct (jarFails (world c1)); reflexivity.
  - cbn -[cleared]. change (world (cleared c)) with (world c).
    destruct (jarFails (world c)); reflexivity.
Qed.

(** [logout] makes no remote call when the service is not authenticated
    and exactly one, the [security/logout] processor, when it is.  It
    leaves base URL and the client's cache of processors as they were, so
    the cached list outlives the session.  The cookie jar is emptied only
    on the path that reports "Successfully logged out from MODX"; when the
    remote call or the cookie store fails, the session is cleared locally
    and the cookies stay. *)
Theorem logout_effects `{Host} (c : Client) :
  let c' := (logout c).2 in
  (this_isAuthenticated (this c) = false → requests c' = requests c)
  ∧ (this_isAuthenticated (this c) = true →
     requests c' = (requests c ++ [call_request (this c) "security/logout" ∅])%list)
  ∧ this_processorCache (this c') = this_processorCache (this c)
  ∧ this_baseUrl (this c') = this_baseUrl (this c)
  ∧ (((logout c).1 = Ok logged_out ∧ this_cookieJar (this c') = [])
     ∨ (logout c).1 = Ok logged_out_locally)
  ∧ (this_isAuthenticated (this c) = true →
     ∀ e, next_outcome c = Throw e →
          (logout c).1 = Ok logged_out_locally
          ∧ this_cookieJar (this c') = this_cookieJar (this c)).
Proof.
  cbv zeta.
  assert (Hc1 : ∃ c1,
    (if this_isAuthenticated (this c)
     then (callProcessor "core" "security/logout" ∅ c).2 else c) = c1
    ∧ (this_isAuthenticated (this c) = false → c1 = c)
    ∧ (this_isAuthenticated (this c) = true →
       requests c1 = (requests c ++ [call_request (this c) "security/logout" ∅])%list)
    ∧ this_processorCache (this c1) = this_processorCache (this c)
    ∧ this_baseUrl (this c1) = this_baseUrl (this c)).
  { eexists. split; [reflexivity|].
    destruct (this_isAuthenticated (this c)) eqn:Hauth; [|done].
    destruct (after_post_facts (touched c) (call_request (this c) "security/logout" ∅))
      as (Hr & _ & _ & _ & Hcache & Hb).
    split; [done|].
    destruct (callProcessor_state "core" "security/logout" ∅ c Hauth) as [-> | ->];
      by rewrite ?Hr, ?Hcache, ?Hb. }
  destruct Hc1 as (c1 & Heq & Hoff & Hon & Hcache & Hbase).
  pose proof (logout_run c) as Hrun. cbv zeta in Hrun. rewrite Heq in Hrun.
  assert (Hstate : (logout c).2 = without_cookies (cleared c1) ∨ (logout c).2 = cleared c1).
  { rewrite Hrun. destruct (_ && _); [by left | by right]. }
  split; [|split; [|split; [|split; [|split]]]].
  - intros Ha. destruct Hstate as [-> | ->]; cbn; by rewrite (Hoff Ha).
  - intros Ha. destruct Hstate as [-> | ->]; cbn; by apply Hon.
  - destruct Hstate as [-> | ->]; exact Hcache.
  - destruct Hstate as [-> | ->]; exact Hbase.
  - rewrite Hrun. destruct (_ && _); [by left | by right].
  - intros Ha e Hnext. rewrite Hrun. rewrite Ha in *.
    assert (Hthrow : (callProcessor "core" "security/logout" ∅ c).1
                     = Throw (surfaced "Processor call failed" e)
                     ∧ this_cookieJar (this c1) = this_cookieJar (this c)).
    { rewrite <- Heq. rewrite callProcessor_run, Hnext by done. cbv zeta.
      split; [done|]. cbn [snd].
      assert (Hjar : this_cookieJar
                (this (after_post (touched c) (call_request (this c) "security/logout" ∅)))
              = this_cookieJar (this c)).
      { unfold after_post, next_outcome in *. cbv zeta.
        change (world (touched c)) with (world c).
        destruct (script (world c)) as [|[r|e'] rest]; done. }
      by destruct (is_401_or_403 e). }
    destruct Hthrow as [-> Hjar]. cbn [andb fst snd]. split; [done|]. exact Hjar.
Qed.

Lemma logout_effects_witness :
  let c := Examples.logged_in [] in
  (@logout Examples.demo_host c).1 = Ok logged_out_locally
  ∧ this_cookieJar (this (@logout Examples.demo_host c).2) = this_cookieJar (this c).
Proof.
  cbn zeta.
  destruct (@logout_effects Examples.demo_host (Examples.logged_in []))
    as (_ & _ & _ & _ & _ & Hfails).
  apply (Hfails ltac:(vm_compute; reflexivity) (AxiosError None "Network Error")).
  vm_compute; reflexivity.
Defined.

(** ** One request at most *)

Section AtMostOne.
Context `{Host}.

Lemma callProcessor_at_most_one (ns a : string) (d : gmap string value) (c : Client) :
  at_most_one_request c (callProcessor ns a d c).2.
Proof.
  destruct (this_isAuthenticated (this c)) eqn:Hauth.
  - right. exists (call_request (this c) a d).
    destruct (after_post_facts (touched c) (call_request (this c) a d)) as (Hr & _).
    by destruct (callProcessor_state ns a d c Hauth) as [-> | ->].
  - left. by rewrite callProcessor_unauthenticated.
Qed.

Lemma getProcessors_at_most_one (refresh : bool) (c : Client) :
  at_most_one_request c (getProcessors refresh c).2.
Proof.
  destruct (getProcessors_cases refresh c)
    as [(f & -> & Hc & ->)|[(Ha & ->)|(Ha & Hfetch)]]; [by left | by left |].
  right. exists (discovery_request (this c)).
  destruct (after_post_facts (touched c) (discovery_request (this c))) as (Hr & _).
  rewrite getProcessors_run by done. cbv zeta.
  repeat (match goal with
          | |- context [match ?x with _ => _ end] => destruct x
          end; try done).
Qed.

Lemma login_at_most_one (u p : string) (b : option string) (c : Client) :
  at_most_one_request c (login u p b c).2.
Proof.
  right. exists (login_request (this (rebased b c)) u p).
  destruct (rebased_facts b c) as (_ & Hr0 & _).
  destruct (after_post_facts (rebased b c) (login_request (this (rebased b c)) u p))
    as (Hr & _).
  rewrite Hr0 in Hr. rewrite login_run. cbv zeta.
  repeat (match goal with
          | |- context [match ?x with _ => _ end] => destruct x
          end; try done).
Qed.

Lemma logout_at_most_one (c : Client) : at_most_one_request c (logout c).2.
Proof.
  pose proof (logout_run c) as Hrun. cbv zeta in Hrun.
  assert (Hc1 : at_most_one_request c
                  (if this_isAuthenticated (this c)
                   then (callProcessor "core" "security/logout" ∅ c).2 else c)).
  { destruct (this_isAuthenticated (this c)); [apply callProcessor_at_most_one | by left]. }
  rewrite Hrun. by destruct (_ && _).
Qed.

Lemma step_at_most_one (e : event) (s : Server) :
  at_most_one_request (modxProxy s) (modxProxy (step e s)).
Proof.
  destruct e; simpl.
  - unfold listTools. rewrite getAllTools_cases.
    destruct (negb _); [by left|]. destruct (processorsCache s); [by left|].
    pose proof (getProcessors_at_most_one false (modxProxy s)) as Hone.
    by destruct (getProcessors false (modxProxy s)) as [[found|err] c'].
  - destruct (callTool_client name args s) as [->|(ns & a & d & ->)]; [by left|].
    apply callProcessor_at_most_one.
  - rewrite lift_client. apply login_at_most_one.
  - rewrite lift_client. apply logout_at_most_one.
  - rewrite lift_client. apply getProcessors_at_most_one.
Qed.

End AtMostOne.

(** No operation retries: every event (a [tools/list], a [tools/call], a
    login, a logout, a discovery) sends one request at most, and a
    sequence of n events sends n requests at most, one after the other,
    never rewriting the requests already sent. *)
Theorem one_request_per_event `{Host} (s : Server) :
  (∀ e, at_most_one_request (modxProxy s) (modxProxy (step e s)))
  ∧ (∀ es, requests (modxProxy s) `prefix_of` requests (modxProxy (run es s))
           ∧ (length (requests (modxProxy (run es s)))
              ≤ length (requests (modxProxy s)) + length es)%nat).
Proof.
  split; [intros e; apply step_at_most_one|].
  intros es. revert s. induction es as [|e es IH]; intros s.
  - split; [done | cbn; lia].
  - destruct (IH (step e s)) as [Hpre Hlen].
    change (run (e :: es) s) with (run es (step e s)).
    destruct (step_at_most_one e s) as [Heq|[req Heq]]; rewrite Heq in *.
    + split; [done | cbn; lia].
    + split.
      * etrans; [|exact Hpre]. by apply prefix_app_r.
      * rewrite length_app in Hlen. cbn in *. lia.
Qed.

(** ** Start-up *)

(** [initializeServer] never throws and never touches the dispatcher
    cache.  Without a user name or without a password (unset or empty) it
    does nothing at all, so nothing is sent; with both it is one [login]
    with the configured base URL, whose failure it swallows. *)
Theorem initializeServer_spec `{Host} (MODX_USERNAME MODX_PASSWORD MODX_BASE_URL
    : option string) (s : Server) :
  ∃ s', initializeServer MODX_USERNAME MODX_PASSWORD MODX_BASE_URL s = (Ok tt, s')
        ∧ processorsCache s' = processorsCache s
        ∧ (default "" MODX_USERNAME = "" ∨ default "" MODX_PASSWORD = "" → s' = s)
        ∧ (default "" MODX_USERNAME ≠ "" → default "" MODX_PASSWORD ≠ "" →
           modxProxy s'
           = (login (default "" MODX_USERNAME) (default "" MODX_PASSWORD)
                    MODX_BASE_URL (modxProxy s)).2).
Proof.
  unfold initializeServer.
  destruct MODX_USERNAME as [u|], MODX_PASSWORD as [p|]; cbn [default];
    try (eexists; split; [reflexivity|]; split; [done|]; split; [done|];
         intros; exfalso; by eauto).
  destruct (String.eqb_spec u "") as [->|Hu]; cbn [negb andb].
  { eexists; split; [reflexivity|]; split; [done|]; split; [done|]. done. }
  destruct (String.eqb_spec p "") as [->|Hp]; cbn [negb andb].
  { eexists; split; [reflexivity|]; split; [done|]; split; [done|]. done. }
  unfold try_catch, bind, ret.
  pose proof (lift_cache (login u p MODX_BASE_URL) s) as Hcache.
  pose proof (lift_client (login u p MODX_BASE_URL) s) as Hclient.
  destruct (lift (login u p MODX_BASE_URL) s) as [[r|e] s'] eqn:Hl; cbn in *;
    eexists; (split; [reflexivity|]); (split; [done|]); (split; [|done]);
    intros [?|?]; done.
Qed.

(** ** Generated schemas and their use *)

Lemma inputSchema_eq (processor : ProcessorInfo) :
  inputSchema (createProcessorTool processor)
  = {| schema_type := "object";
       properties := (fold_left add_param (default [] (parameters processor)) (∅, [])).1;
       required := Some (fold_left add_param (default [] (parameters processor)) (∅, [])).2;
       additionalProperties := Some true |}.
Proof.
  unfold createProcessorTool. destruct (parameters processor) as [params|]; simpl.
  - by destruct (fold_left add_param params (∅, [])).
  - reflexivity.
Qed.

(** A generated schema is consistent and leaks no internal parameter:
    every name of its required list is a key of its properties; no key is
    empty or begins with an underscore; every property carries one of the
    five JSON Schema type names and a description that is not empty; and
    there are no more properties than parameters. *)
Theorem createProcessorTool_consistent (processor : ProcessorInfo) :
  let schema := inputSchema (createProcessorTool processor) in
  (∀ k, k ∈ default [] (required schema) → is_Some (properties schema !! k))
  ∧ (∀ k, is_Some (properties schema !! k) → k ≠ "" ∧ startsWith k "_" = false)
  ∧ (∀ k prop, properties schema !! k = Some prop →
       prop_type prop ∈ json_types ∧ prop_description prop ≠ "")
  ∧ (size (properties schema) ≤ length (default [] (parameters processor)))%nat.
Proof.
  cbv zeta. rewrite inputSchema_eq.
  cbn [properties required default from_option].
  destruct (loop_over_parameters (default [] (parameters processor))) as [Hprops Hreq].
  cbv zeta in Hprops, Hreq.
  set (params := default [] (parameters processor)) in *.
  assert (Hkey : ∀ k prop, (fold_left add_param params (∅, [])).1 !! k = Some prop →
            ∃ p, p ∈ params ∧ skipped p = false ∧ param_name p = k
                 ∧ prop = property_of p).
  { intros k prop Hk. rewrite Hprops in Hk.
    destruct (last _) as [p|] eqn:Hlast; [|done]. injection Hk as <-.
    apply last_Some_elem_of, list_elem_of_filter in Hlast as [[Hsk Hn] Hin].
    by exists p. }
  split; [|split; [|split]].
  - intros k Hk. rewrite Hreq in Hk.
    apply list_elem_of_fmap in Hk as (p & -> & Hp).
    apply list_elem_of_filter in Hp as [[Hsk _] Hin].
    rewrite Hprops. apply fmap_is_Some, last_is_Some. intros Hnil.
    assert (Hp : p ∈ filter (λ q, skipped q = false ∧ param_name q = param_name p) params)
      by (by apply list_elem_of_filter).
    rewrite Hnil in Hp. by apply elem_of_nil in Hp.
  - intros k [prop Hk]. destruct (Hkey k prop Hk) as (p & _ & Hsk & <- & _).
    split.
    + intros Hempty. assert (skipped p = true); [|congruence].
      apply skipped_iff. by left.
    + destruct (startsWith (param_name p) "_") eqn:Hs; [|done].
      assert (skipped p = true); [|congruence]. apply skipped_iff. by right.
  - intros k prop Hk. destruct (Hkey k prop Hk) as (p & _ & Hsk & Hn & ->).
    split.
    + rewrite property_type_spec. apply json_type_range.
    + cbn [prop_description property_of]. unfold str_or.
      destruct (String.eqb_spec (param_description p) "") as [_|Hd]; [|done].
      discriminate.
  - clear Hprops Hreq Hkey. induction params as [|p params IH] using rev_ind; [done|].
    rewrite fold_left_app, length_app. cbn [fold_left length].
    unfold add_param at 1. destruct (skipped p); [lia|]. cbn [fst].
    destruct ((fold_left add_param params (∅, [])).1 !! param_name p) eqn:Hl.
    + rewrite map_size_insert_Some by done. lia.
    + rewrite map_size_insert_None by done. lia.
Qed.

(** The namespace of a descriptor takes part in the name of its tool and
    in nothing else: the generated tools of two cached descriptors with
    the same path (each the only cached descriptor of its name) send the
    same request, leave the server in the same state, and give the same
    result whenever either of them succeeds, whatever the two namespaces
    are. *)
Theorem namespace_is_not_forwarded `{Host} (args : option (gmap string value))
    (s : Server) (ps : list ProcessorInfo) (d1 d2 : ProcessorInfo) :
  processorsCache s = Some ps →
  d1 ∈ ps → d2 ∈ ps →
  name_of d1 ≠ "modx_get_session_info" →
  name_of d2 ≠ "modx_get_session_info" →
  (∀ e, e ∈ ps → name_of e = name_of d1 →
        (namespace e, path e) = (namespace d1, path d1)) →
  (∀ e, e ∈ ps → name_of e = name_of d2 →
        (namespace e, path e) = (namespace d2, path d2)) →
  path d1 = path d2 →
  (callTool (name_of d1) args s).2 = (callTool (name_of d2) args s).2
  ∧ (∀ result,
       (callTool (name_of d1) args s).1
       = Ok {| content := ResultText result; isError := false |}
       ↔ (callTool (name_of d2) args s).1
         = Ok {| content := ResultText result; isError := false |}).
Proof.
  intros Hps Hin1 Hin2 Hn1 Hn2 Hu1 Hu2 Hpath.
  assert (H1 := callTool_resolved (name_of d1) args s (namespace d1) (path d1) Hn1).
  assert (H2 := callTool_resolved (name_of d2) args s (namespace d2) (path d2) Hn2).
  rewrite Hps in H1, H2.
  specialize (H1 (resolve_cached ps d1 Hin1 Hu1)).
  specialize (H2 (resolve_cached ps d2 Hin2 Hu2)).
  rewrite H1, H2, Hpath.
  change (callProcessor (namespace d1) (path d2) (default ∅ args) (modxProxy s))
    with (callProcessor (namespace d2) (path d2) (default ∅ args) (modxProxy s)).
  destruct (callProcessor (namespace d2) (path d2) (default ∅ args) (modxProxy s))
    as [[r|e] c']; cbn [fst snd]; by split.
Qed.

Lemma namespace_is_not_forwarded_witness :
  let d1 := Examples.processor "core" "resource/getlist" [] in
  let d2 := Examples.processor "extra" "resource/getlist" [] in
  let s := {| modxProxy := Examples.logged_in [Examples.respond Examples.login_ok];
              processorsCache := Some [d1; d2] |} in
  (@callTool Examples.demo_host "modx_core_resource_getlist" None s).2
  = (@callTool Examples.demo_host "modx_extra_resource_getlist" None s).2.
Proof.
  cbn zeta.
  refine (proj1 (@namespace_is_not_forwarded Examples.demo_host None
           {| modxProxy := Examples.logged_in [Examples.respond Examples.login_ok];
              processorsCache := Some [Examples.processor "core" "resource/getlist" [];
                                       Examples.processor "extra" "resource/getlist" []] |}
           [Examples.processor "core" "resource/getlist" [];
            Examples.processor "extra" "resource/getlist" []]
           (Examples.processor "core" "resource/getlist" [])
           (Examples.processor "extra" "resource/getlist" [])
           _ _ _ _ _ _ _ _)).
  - reflexivity.
  - apply elem_of_cons. by left.
  - apply elem_of_cons. right. apply elem_of_cons. by left.
  - discriminate.
  - discriminate.
  - intros e He Hname. apply elem_of_cons in He as [-> | He]; [reflexivity|].
    apply elem_of_cons in He as [-> | He]; [discriminate Hname|].
    by apply elem_of_nil in He.
  - intros e He Hname. apply elem_of_cons in He as [-> | He]; [discriminate Hname|].
    apply elem_of_cons in He as [-> | He]; [reflexivity|].
    by apply elem_of_nil in He.
  - reflexivity.
Defined.
